(** * Recovery of the bash hash table from process memory

    A shallow embedding of [volatility/plugins/linux/bash_hash.py]: the two
    layout catalogs, the validity test of [_bash_hash_table], the profile
    modification and the generator [linux_bash_hash.calculate], followed by
    the properties of the scanner, the validator and the chain traversal. *)

From Stdlib Require Import ZArith List String Bool Lia FinFun.
From Stdlib Require Import Strings.Byte.
Import ListNotations.
Local Open Scope string_scope.
Local Open Scope list_scope.
Local Open Scope Z_scope.

(** ** Bytes and [struct.unpack] *)

Definition byte_val (b : byte) : Z := Z.of_N (Byte.to_N b).

(** Little-endian value of a byte string, least significant byte first. *)
Fixpoint le_unsigned (bs : list byte) : Z :=
  match bs with
  | [] => 0
  | b :: rest => byte_val b + 256 * le_unsigned rest
  end.

(** [struct.unpack("<I", dr)[0]]: [None] stands for [struct.error], raised
    when [dr] is not exactly four bytes long. *)
Definition unpack_I (dr : list byte) : option Z :=
  if (Z.of_nat (List.length dr) =? 4) then Some (le_unsigned dr) else None.

(** Two's complement reading of an unsigned 32-bit value (format ["<i"]). *)
Definition to_signed32 (u : Z) : Z :=
  if u <? 2 ^ 31 then u else u - 2 ^ 32.

(** ** Python helpers: [range] and dictionaries as association lists *)

Definition range (lo hi : Z) : list Z :=
  map (fun i => lo + Z.of_nat i) (seq 0 (Z.to_nat (hi - lo))).

Definition dict (V : Type) : Type := list (string * V).

Fixpoint dict_get {V : Type} (d : dict V) (k : string) : option V :=
  match d with
  | [] => None
  | (k', v) :: rest => if String.eqb k' k then Some v else dict_get rest k
  end.

(** [d.update(e)]: the entries of [e] take precedence over those of [d]. *)
Definition dict_update {V : Type} (d e : dict V) : dict V := (e ++ d)%list.

(** [d.get(k, default)]. *)
Definition dict_get_default {V : Type} (d : dict V) (k : string) (default : V) : V :=
  match dict_get d k with
  | Some v => v
  | None => default
  end.

(** ** The layout catalogs *)

Inductive vtype : Type :=
| t_int
| t_pointer (target : string)
| t_pointer_String (length : Z).

(** A structure description: its size and, per member, offset and type. *)
Definition struct_def : Type := (Z * dict (Z * vtype))%type.

Definition bash_hash_vtypes_32 : dict struct_def :=
  [ ("_pathdata", (8,
      [ ("path", (0, t_pointer_String 1024));
        ("flags", (4, t_int)) ]));
    ("bucket_contents", (20,
      [ ("next", (0, t_pointer "bucket_contents"));
        ("key", (4, t_pointer_String 1024));
        ("data", (8, t_pointer "_pathdata"));
        ("times_found", (16, t_int)) ]));
    ("_bash_hash_table", (12,
      [ ("bucket_array", (0, t_pointer "bucket_contents"));
        ("nbuckets", (4, t_int));
        ("nentries", (8, t_int)) ])) ].

Definition bash_hash_vtypes_64 : dict struct_def :=
  [ ("_pathdata", (12,
      [ ("path", (0, t_pointer_String 1024));
        ("flags", (8, t_int)) ]));
    ("bucket_contents", (32,
      [ ("next", (0, t_pointer "bucket_contents"));
        ("key", (8, t_pointer_String 1024));
        ("data", (16, t_pointer "_pathdata"));
        ("times_found", (28, t_int)) ]));
    ("_bash_hash_table", (16,
      [ ("bucket_array", (0, t_pointer "bucket_contents"));
        ("nbuckets", (8, t_int));
        ("nentries", (12, t_int)) ])) ].

(** Classes a profile may attach to a structure name. *)
Inductive object_class : Type :=
| class_bash_hash_table.

Record Profile : Type := mkProfile {
  metadata : dict string;
  vtypes : dict struct_def;
  object_classes : dict object_class
}.

(** [BashHashTypes.modification]. *)
Definition modification (profile : Profile) : Profile :=
  let vt :=
    if String.eqb (dict_get_default (metadata profile) "memory_model" "32bit") "32bit"
    then dict_update (vtypes profile) bash_hash_vtypes_32
    else dict_update (vtypes profile) bash_hash_vtypes_64 in
  {| metadata := metadata profile;
     vtypes := vt;
     object_classes :=
       dict_update (object_classes profile)
                   [("_bash_hash_table", class_bash_hash_table)] |}.

(** [profile.get_obj_offset(name, member)]; [None] is Python's [KeyError]. *)
Definition get_obj_offset (profile : Profile) (name member : string) : option Z :=
  match dict_get (vtypes profile) name with
  | Some (_, members) =>
      match dict_get members member with
      | Some (off, _) => Some off
      | None => None
      end
  | None => None
  end.

(** Modelled from the spec: the width of a pointer cell, which the framework
    takes from the profile's native types (not part of this plugin): four
    bytes under the narrow memory model, eight under the wide one. *)
Definition pointer_size (profile : Profile) : Z :=
  if String.eqb (dict_get_default (metadata profile) "memory_model" "32bit") "32bit"
  then 4 else 8.

(** The two profiles the plugin can run under: a Linux profile carrying the
    given memory-model metadata, after [modification]. *)
Definition linux_profile (memory_model : option string) : Profile :=
  modification
    {| metadata := match memory_model with
                   | Some m => [("memory_model", m)]
                   | None => []
                   end;
       vtypes := [];
       object_classes := [] |}.

Definition profile32 : Profile := linux_profile (Some "32bit").
Definition profile64 : Profile := linux_profile (Some "64bit").

(** ** The address-space reader *)

(** Modelled from the spec: the Address-Space Reader (the framework's
    [addrspace] module is not part of this plugin).  A process address space
    is a sparse byte-addressable memory; an address that holds no byte is
    unmapped. *)
Definition AddressSpace : Type := Z -> option byte.

(** Modelled from the spec: [resolveAddress]; a pointer value resolves when
    it refers to mapped memory. *)
Definition is_valid_address (vm : AddressSpace) (addr : Z) : bool :=
  match vm addr with
  | Some _ => true
  | None => false
  end.

Fixpoint read_n (vm : AddressSpace) (addr : Z) (n : nat) : option (list byte) :=
  match n with
  | O => Some []
  | S k =>
      match vm addr, read_n vm (addr + 1) k with
      | Some b, Some rest => Some (b :: rest)
      | _, _ => None
      end
  end.

(** Modelled from the spec: [readBytes(offset, length)] returns exactly
    [length] bytes or signals failure ([None], the ReadFailure). *)
Definition read (vm : AddressSpace) (addr length : Z) : option (list byte) :=
  read_n vm addr (Z.to_nat length).

(** Modelled from the spec: [zread], the reader the scanner calls.  It is the
    zero-filling form of [read]: a failed read is returned as [length] zero
    bytes, so the caller always receives a byte string of the requested
    length. *)
Definition zread (vm : AddressSpace) (addr length : Z) : list byte :=
  match read vm addr length with
  | Some bs => bs
  | None => repeat x00 (Z.to_nat length)
  end.

(** ** Typed views over memory *)

(** Modelled from the spec: a raw-integer member (['int']) is a signed
    32-bit little-endian cell; an unreadable cell is the framework's null
    object ([None]), which is false in every test. *)
Definition read_int (vm : AddressSpace) (addr : Z) : option Z :=
  option_map (fun bs => to_signed32 (le_unsigned bs)) (read vm addr 4).

(** Modelled from the spec: the value of a pointer cell, an unsigned
    little-endian integer of the profile's pointer width. *)
Definition read_pointer (profile : Profile) (vm : AddressSpace) (addr : Z) : option Z :=
  option_map le_unsigned (read vm addr (pointer_size profile)).

Section Views.
Variable profile : Profile.
Variable vm : AddressSpace.

(** Address of member [member] of the structure [name] based at [base]. *)
Definition member_addr (name member : string) (base : Z) : option Z :=
  option_map (fun off => base + off) (get_obj_offset profile name member).

(** [obj.<member>] for an ['int'] member. *)
Definition int_member (name member : string) (base : Z) : option Z :=
  match member_addr name member base with
  | Some a => read_int vm a
  | None => None
  end.

(** [obj.<member>.v()] for a pointer member: the address it holds. *)
Definition pointer_member (name member : string) (base : Z) : option Z :=
  match member_addr name member base with
  | Some a => read_pointer profile vm a
  | None => None
  end.

(** [Pointer.is_valid()]: the held address is mapped. *)
Definition pointer_is_valid (ptr : option Z) : bool :=
  match ptr with
  | Some v => is_valid_address vm v
  | None => false
  end.

(** Dereference of a pointer value: the address of the target object, or
    [None] (the null object) when the pointer does not resolve. *)
Definition dereference (ptr : option Z) : option Z :=
  match ptr with
  | Some v => if is_valid_address vm v then Some v else None
  | None => None
  end.

(** [CType.is_valid]: the base address of the view is mapped. *)
Definition CType_is_valid (off : Z) : bool := is_valid_address vm off.

(** [_bash_hash_table.is_valid]. *)
Definition bash_hash_table_is_valid (off : Z) : bool :=
  if (negb (CType_is_valid off)
      || negb (pointer_is_valid (pointer_member "_bash_hash_table" "bucket_array" off))
      || negb (match int_member "_bash_hash_table" "nbuckets" off with
               | Some n => n =? 64
               | None => false
               end)
      || negb (match int_member "_bash_hash_table" "nentries" off with
               | Some n => n >? 1
               | None => false
               end))%bool
  then false
  else true.

(** [htable.is_valid()]: dispatched through the profile's object classes. *)
Definition htable_is_valid (off : Z) : bool :=
  match dict_get (object_classes profile) "_bash_hash_table" with
  | Some class_bash_hash_table => bash_hash_table_is_valid off
  | None => CType_is_valid off
  end.
End Views.

(** ** Generators *)

(** What pulling a generator to exhaustion gives: the rows it yields, an
    exception escaping it, or a loop that is still running when the fuel
    given to it is spent. *)
Inductive outcome (A : Type) : Type :=
| Yields (rows : list A)
| Raises
| Running.
Arguments Yields {A} rows.
Arguments Raises {A}.
Arguments Running {A}.

(** Sequential composition: [second] runs once [first] is exhausted. *)
Definition and_then {A : Type} (first second : outcome A) : outcome A :=
  match first with
  | Yields l1 =>
      match second with
      | Yields l2 => Yields (l1 ++ l2)
      | other => other
      end
  | other => other
  end.

Definition map_outcome {A B : Type} (f : A -> B) (o : outcome A) : outcome B :=
  match o with
  | Yields l => Yields (map f l)
  | Raises => Raises
  | Running => Running
  end.

(** [for x in xs: body(x)], each body itself a generator. *)
Definition for_each {A B : Type} (body : A -> outcome B) (xs : list A) : outcome B :=
  fold_right (fun x rest => and_then (body x) rest) (Yields []) xs.

(** ** Chain traversal and the scan loop of [calculate] *)

Section Scan.
Variable profile : Profile.
Variable vm : AddressSpace.

(** The test of the [while] loop on a bucket that was materialized at [a]:
    [bucket.times_found > 0 and bucket.data.is_valid() and bucket.key.is_valid()]. *)
Definition loop_condition (a : Z) : bool :=
  (match int_member profile vm "bucket_contents" "times_found" a with
   | Some n => n >? 0
   | None => false
   end)
  && pointer_is_valid vm (pointer_member profile vm "bucket_contents" "data" a)
  && pointer_is_valid vm (pointer_member profile vm "bucket_contents" "key" a).

(** The test guarding [yield]:
    [pdata.path.is_valid() and (0 <= pdata.flags <= 2)] with [pdata = bucket.data]. *)
Definition yield_condition (a : Z) : bool :=
  match dereference vm (pointer_member profile vm "bucket_contents" "data" a) with
  | Some pdata =>
      pointer_is_valid vm (pointer_member profile vm "_pathdata" "path" pdata)
      && (match int_member profile vm "_pathdata" "flags" pdata with
          | Some flags => (0 <=? flags) && (flags <=? 2)
          | None => false
          end)
  | None => false
  end.

(** [bucket.next], resolved: the next bucket, or [None] for the null object. *)
Definition bucket_next (a : Z) : option Z :=
  dereference vm (pointer_member profile vm "bucket_contents" "next" a).

(** The [while] loop over one chain.  A null bucket fails the loop test.
    [fuel] bounds the number of times the loop body may run. *)
Fixpoint while_chain (fuel : nat) (bucket : option Z) : outcome Z :=
  match bucket with
  | None => Yields []
  | Some a =>
      if loop_condition a then
        match fuel with
        | O => Running
        | S fuel' =>
            and_then (Yields (if yield_condition a then [a] else []))
                     (while_chain fuel' (bucket_next a))
        end
      else Yields []
  end.

(** The cells of [Array(targetType = "Pointer", offset = base, count = count)]. *)
Definition Array_cells (base count : Z) : list Z :=
  map (fun position => base + position * pointer_size profile) (range 0 count).

(** [bucket_ptr.dereference_as("bucket_contents")]. *)
Definition dereference_as_bucket (bucket_ptr : Z) : option Z :=
  dereference vm (read_pointer profile vm bucket_ptr).

(** The body run for an accepted table: all 64 chains, in array order. *)
Definition walk_table (fuel : nat) (off : Z) : outcome Z :=
  match pointer_member profile vm "_bash_hash_table" "bucket_array" off with
  | Some bucket_array =>
      for_each (fun bucket_ptr => while_chain fuel (dereference_as_bucket bucket_ptr))
               (Array_cells bucket_array 64)
  | None => Yields []
  end.

(** One iteration of [for off in range(heap_vma.vm_start, heap_vma.vm_end)]. *)
Definition scan_offset (fuel : nat) (nbuckets_offset : Z) (off : Z) : outcome Z :=
  let dr := zread vm (off + nbuckets_offset) 4 in
  match unpack_I dr with
  | None => Raises
  | Some test =>
      if negb (test =? 64) then Yields []
      else if htable_is_valid profile vm off then walk_table fuel off
      else Yields []
  end.

Definition scan_heap (fuel : nat) (nbuckets_offset : Z) (lo hi : Z) : outcome Z :=
  for_each (scan_offset fuel nbuckets_offset) (range lo hi).
End Scan.

(** ** Processes *)

Record vm_area_struct : Type := mkVma {
  vm_start : Z;
  vm_end : Z
}.

Record task_struct : Type := mkTask {
  pid : Z;
  comm : string;
  get_process_address_space : option AddressSpace;
  get_proc_maps : list vm_area_struct;
  mm_start_brk : Z;
  mm_brk : Z
}.

Record Config : Type := mkConfig {
  SCAN_ALL : bool
}.

(** A materialized object: the address space it lives in and its address. *)
Record Object : Type := mkObject {
  obj_vm : AddressSpace;
  obj_offset : Z
}.

(** The inner [for vma in task.get_proc_maps()] with its [break]. *)
Definition find_heap_vma (task : task_struct) : option vm_area_struct :=
  find (fun vma => (vm_start vma <=? mm_start_brk task) && (vm_end vma >=? mm_brk task))
       (get_proc_maps task).

(** The part of the body of [for task in tasks] that decides, through its
    three [continue] statements, whether the heap scan is reached, and on
    which address space and region. *)
Definition scan_target (config : Config) (task : task_struct)
  : option (AddressSpace * vm_area_struct) :=
  match get_process_address_space task with
  | None => None
  | Some proc_as =>
      if negb (SCAN_ALL config || String.eqb (comm task) "bash") then None
      else
        match find_heap_vma task with
        | None => None
        | Some heap_vma => Some (proc_as, heap_vma)
        end
  end.

(** The body of [for task in tasks]. *)
Definition scan_task (fuel : nat) (config : Config) (profile : Profile)
           (nbuckets_offset : Z) (task : task_struct) : outcome (task_struct * Object) :=
  match scan_target config task with
  | None => Yields []
  | Some (proc_as, heap_vma) =>
      map_outcome (fun a => (task, mkObject proc_as a))
                  (scan_heap profile proc_as fuel nbuckets_offset
                             (vm_start heap_vma) (vm_end heap_vma))
  end.

(** [linux_bash_hash.calculate]. *)
Definition calculate (fuel : nat) (config : Config) (profile : Profile)
           (tasks : list task_struct) : outcome (task_struct * Object) :=
  match get_obj_offset profile "_bash_hash_table" "nbuckets" with
  | None => Raises
  | Some nbuckets_offset =>
      for_each (scan_task fuel config profile nbuckets_offset) tasks
  end.

(** ** Rendering *)

Fixpoint until_nul (bs : list byte) : list byte :=
  match bs with
  | [] => []
  | b :: rest => if Byte.eqb b x00 then [] else b :: until_nul rest
  end.

(** [str(ptr.dereference())] for a pointer to a [String] of length 1024:
    the bytes up to the first NUL, or [None] when the pointer does not
    resolve. *)
Definition String_str (vm : AddressSpace) (ptr : option Z) : option (list byte) :=
  match dereference vm ptr with
  | Some a => Some (until_nul (zread vm a 1024))
  | None => None
  end.

Record table_row : Type := mkRow {
  row_pid : Z;
  row_name : string;
  row_hits : option Z;
  row_command : option (list byte);
  row_full_path : option (list byte)
}.

(** One [table_row] call of [render_text]. *)
Definition render_row (profile : Profile) (item : task_struct * Object) : table_row :=
  let '(task, bucket) := item in
  let vm := obj_vm bucket in
  let a := obj_offset bucket in
  {| row_pid := pid task;
     row_name := comm task;
     row_hits := int_member profile vm "bucket_contents" "times_found" a;
     row_command := String_str vm (pointer_member profile vm "bucket_contents" "key" a);
     row_full_path :=
       match dereference vm (pointer_member profile vm "bucket_contents" "data" a) with
       | Some pdata => String_str vm (pointer_member profile vm "_pathdata" "path" pdata)
       | None => None
       end |}.

Definition render_text (profile : Profile) (data : list (task_struct * Object)) : list table_row :=
  map (render_row profile) data.

(** ** Hand-built memory images *)

Definition byte_of_Z (z : Z) : byte :=
  match Byte.of_N (Z.to_N (z mod 256)) with
  | Some b => b
  | None => x00
  end.

(** The [n] little-endian bytes of [v]. *)
Fixpoint le_bytes (n : nat) (v : Z) : list byte :=
  match n with
  | O => []
  | S k => byte_of_Z v :: le_bytes k (v / 256)
  end.

Definition ascii_bytes (s : string) : list byte :=
  list_byte_of_string s.

(** Bytes written at given addresses. *)
Definition patches : Type := list (Z * list byte).

Fixpoint patch_lookup (ps : patches) (a : Z) : option byte :=
  match ps with
  | [] => None
  | (base, bs) :: rest =>
      if (base <=? a) && (a <? base + Z.of_nat (List.length bs))
      then nth_error bs (Z.to_nat (a - base))
      else patch_lookup rest a
  end.

(** The address space mapping [lo, hi), zero-filled except for [ps]. *)
Definition image (lo hi : Z) (ps : patches) : AddressSpace :=
  fun a =>
    if (lo <=? a) && (a <? hi) then
      match patch_lookup ps a with
      | Some b => Some b
      | None => Some x00
      end
    else None.

Section Layouts.
(** Encoders of the three structures for a pointer width [w] (4 or 8);
    [khash] is the cell between [data] and [times_found]. *)
Variable w : nat.

Definition enc_table (bucket_array nbuckets nentries : Z) : list byte :=
  le_bytes w bucket_array ++ le_bytes 4 nbuckets ++ le_bytes 4 nentries.

Definition enc_bucket (next key data khash times_found : Z) : list byte :=
  le_bytes w next ++ le_bytes w key ++ le_bytes w data
  ++ le_bytes 4 khash ++ le_bytes 4 times_found.

Definition enc_pathdata (path flags : Z) : list byte :=
  le_bytes w path ++ le_bytes 4 flags.
End Layouts.

(** One table at 0x1010 whose bucket 5 heads a chain of two entries:
    ("ls", "/bin/ls", 3 hits, flags 0) and ("cat", "/bin/cat", 1 hit,
    flags 2). *)
Definition two_entry_patches (w : nat) : patches :=
  [ (0x1010, enc_table w 0x1100 64 2);
    (0x1100 + 5 * Z.of_nat w, le_bytes w 0x1400);
    (0x1400, enc_bucket w 0x1440 0x1500 0x1480 7 3);
    (0x1440, enc_bucket w 0 0x1520 0x14a0 9 1);
    (0x1480, enc_pathdata w 0x1540 0);
    (0x14a0, enc_pathdata w 0x1560 2);
    (0x1500, ascii_bytes "ls");
    (0x1520, ascii_bytes "cat");
    (0x1540, ascii_bytes "/bin/ls");
    (0x1560, ascii_bytes "/bin/cat") ].

(** The two-entry table laid out with narrow and with wide pointers. *)
Definition image32 : AddressSpace := image 0x1000 0x3000 (two_entry_patches 4).
Definition image64 : AddressSpace := image 0x1000 0x3000 (two_entry_patches 8).

(** A process named bash whose heap region is [0x1000, 0x2000). *)
Definition bash_task (vm : AddressSpace) : task_struct :=
  {| pid := 1234;
     comm := "bash";
     get_process_address_space := Some vm;
     get_proc_maps := [mkVma 0x400 0x800; mkVma 0x1000 0x2000];
     mm_start_brk := 0x1000;
     mm_brk := 0x1800 |}.

(** The default configuration: [SCAN_ALL] is off. *)
Definition only_bash : Config := {| SCAN_ALL := false |}.

(** The addresses of the buckets a run yields. *)
Definition yielded_offsets (o : outcome (task_struct * Object)) : outcome Z :=
  map_outcome (fun item => obj_offset (snd item)) o.

(** ** Derived notions: prefilter, candidates, accepted tables *)

(** The prefilter of the scan loop: true when the loop does not [continue]
    at the test of the four bytes read at [off + nbuckets_offset]. *)
Definition prefilter (vm : AddressSpace) (nbuckets_offset off : Z) : bool :=
  match unpack_I (zread vm (off + nbuckets_offset) 4) with
  | Some test => test =? 64
  | None => false
  end.

(** The offsets of [range(lo, hi)] promoted to validation. *)
Definition candidates (vm : AddressSpace) (nbuckets_offset lo hi : Z) : list Z :=
  filter (prefilter vm nbuckets_offset) (range lo hi).

(** What the loop does with a candidate. *)
Definition validate_and_walk (profile : Profile) (vm : AddressSpace)
           (fuel : nat) (off : Z) : outcome Z :=
  if htable_is_valid profile vm off then walk_table profile vm fuel off
  else Yields [].

(** The candidates the validator accepts. *)
Definition accepted_tables (profile : Profile) (vm : AddressSpace)
           (nbuckets_offset lo hi : Z) : list Z :=
  filter (htable_is_valid profile vm) (candidates vm nbuckets_offset lo hi).

(** ** Notions used in the statements *)

(** The specification's wording of the prefilter cell: the [nentries]
    member, its entry count. *)
Definition spec_prefilter_cell (p : Profile) (o : Z) : option Z :=
  option_map (fun eo => o + eo) (get_obj_offset p "_bash_hash_table" "nentries").

(** The cell the scan loop reads: the [nbuckets] member, its bucket count. *)
Definition code_prefilter_cell (p : Profile) (o : Z) : option Z :=
  option_map (fun nbo => o + nbo) (get_obj_offset p "_bash_hash_table" "nbuckets").

(** [o] is promoted to validation by the scan of [lo, hi) under [p]. *)
Definition is_candidate (p : Profile) (vm : AddressSpace) (lo hi o : Z) : Prop :=
  exists nbo, get_obj_offset p "_bash_hash_table" "nbuckets" = Some nbo
              /\ In o (candidates vm nbo lo hi).

(** [o] is accepted by the validator in the scan of [lo, hi) under [p]. *)
Definition is_accepted (p : Profile) (vm : AddressSpace) (lo hi o : Z) : Prop :=
  exists nbo, get_obj_offset p "_bash_hash_table" "nbuckets" = Some nbo
              /\ In o (accepted_tables p vm nbo lo hi).

(** The live entries of a chain: [live_chain p vm b nodes] holds when,
    starting from the bucket [b], the nodes of [nodes] are met in that order,
    each passes the loop test, and what follows the last of them is null or
    fails the loop test. *)
Inductive live_chain (p : Profile) (vm : AddressSpace) : option Z -> list Z -> Prop :=
| chain_null : live_chain p vm None []
| chain_stop (a : Z) :
    loop_condition p vm a = false -> live_chain p vm (Some a) []
| chain_step (a : Z) (nodes : list Z) :
    loop_condition p vm a = true ->
    live_chain p vm (bucket_next p vm a) nodes ->
    live_chain p vm (Some a) (a :: nodes).

(** A chain of three live entries whose middle entry has flags 5: the
    middle entry is skipped and the third is still reached. *)
Definition skipping_patches (w : nat) : patches :=
  [ (0x1010, enc_table w 0x1100 64 3);
    (0x1100, le_bytes w 0x1400);
    (0x1400, enc_bucket w 0x1440 0x1500 0x1480 7 3);
    (0x1440, enc_bucket w 0x1460 0x1520 0x14a0 9 1);
    (0x1460, enc_bucket w 0 0x1520 0x14c0 9 4);
    (0x1480, enc_pathdata w 0x1540 0);
    (0x14a0, enc_pathdata w 0x1560 5);
    (0x14c0, enc_pathdata w 0x1560 1);
    (0x1500, ascii_bytes "ls");
    (0x1520, ascii_bytes "cat");
    (0x1540, ascii_bytes "/bin/ls");
    (0x1560, ascii_bytes "/bin/cat") ].

(** A table whose bucket 5 heads an entry that is its own successor. *)
Definition cyclic_patches (w : nat) : patches :=
  [ (0x1010, enc_table w 0x1100 64 2);
    (0x1100 + 5 * Z.of_nat w, le_bytes w 0x1400);
    (0x1400, enc_bucket w 0x1400 0x1500 0x1480 7 3);
    (0x1480, enc_pathdata w 0x1540 0);
    (0x1500, ascii_bytes "ls");
    (0x1540, ascii_bytes "/bin/ls") ].

(** The cyclic table laid out with narrow pointers. *)
Definition cyclic_image32 : AddressSpace := image 0x1000 0x3000 (cyclic_patches 4).

(** A run that has ended with some fuel ends the same way with more. *)
Definition fuel_monotone {B : Type} (run : nat -> outcome B) : Prop :=
  forall fuel fuel' rows,
    run fuel = Yields rows -> (fuel <= fuel')%nat -> run fuel' = Yields rows.

(** The addresses of the yielded buckets. *)
Definition offsets_of (rows : list (task_struct * Object)) : list Z :=
  map (fun item => obj_offset (snd item)) rows.

(** The flags of the path data of the entry at [a]. *)
Definition entry_flags (p : Profile) (vm : AddressSpace) (a : Z) : option Z :=
  match dereference vm (pointer_member p vm "bucket_contents" "data" a) with
  | Some pdata => int_member p vm "_pathdata" "flags" pdata
  | None => None
  end.

(** The heads of the 64 chains of the table at [off]. *)
Definition bucket_heads (p : Profile) (vm : AddressSpace) (off : Z) : list (option Z) :=
  match pointer_member p vm "_bash_hash_table" "bucket_array" off with
  | Some bucket_array => map (dereference_as_bucket p vm) (Array_cells p bucket_array 64)
  | None => []
  end.

(** An address space that maps only the lower half of the scanned range. *)
Definition half_mapped : AddressSpace := image 0x1000 0x1800 [].

(** A process whose address space cannot be obtained. *)
Definition no_address_space : task_struct :=
  {| pid := 7; comm := "bash"; get_process_address_space := None;
     get_proc_maps := []; mm_start_brk := 0; mm_brk := 0 |}.

(** Two buckets correspond: both null, or both materialized at
    corresponding addresses. *)
Definition bucket_rel (R : Z -> Z -> Prop) (b32 b64 : option Z) : Prop :=
  match b32, b64 with
  | Some a, Some b => R a b
  | None, None => True
  | _, _ => False
  end.

(** Two path-data records, one under each layout, hold the same flags and
    the same path string. *)
Definition pathdata_equivalent (vm32 vm64 : AddressSpace) (d32 d64 : option Z) : Prop :=
  match d32, d64 with
  | Some x, Some y =>
      int_member profile32 vm32 "_pathdata" "flags" x
      = int_member profile64 vm64 "_pathdata" "flags" y
      /\ String_str vm32 (pointer_member profile32 vm32 "_pathdata" "path" x)
         = String_str vm64 (pointer_member profile64 vm64 "_pathdata" "path" y)
  | None, None => True
  | _, _ => False
  end.

(** Structural equivalence of the entries of a narrow and of a wide buffer:
    entries at corresponding addresses hold the same count, the same key
    string and equivalent path data, and their successors correspond. *)
Definition entries_equivalent (R : Z -> Z -> Prop) (vm32 vm64 : AddressSpace) : Prop :=
  forall a b, R a b ->
    int_member profile32 vm32 "bucket_contents" "times_found" a
    = int_member profile64 vm64 "bucket_contents" "times_found" b
    /\ String_str vm32 (pointer_member profile32 vm32 "bucket_contents" "key" a)
       = String_str vm64 (pointer_member profile64 vm64 "bucket_contents" "key" b)
    /\ pathdata_equivalent vm32 vm64
         (dereference vm32 (pointer_member profile32 vm32 "bucket_contents" "data" a))
         (dereference vm64 (pointer_member profile64 vm64 "bucket_contents" "data" b))
    /\ bucket_rel R (bucket_next profile32 vm32 a) (bucket_next profile64 vm64 b).

(** Two tables correspond when their 64 chain heads do, slot by slot. *)
Definition tables_equivalent (R : Z -> Z -> Prop) (vm32 vm64 : AddressSpace)
           (t32 t64 : Z) : Prop :=
  Forall2 (bucket_rel R) (bucket_heads profile32 vm32 t32) (bucket_heads profile64 vm64 t64).

(** The tables accepted in the scan of a heap region under [p]. *)
Definition accepted_in (p : Profile) (vm : AddressSpace) (heap_vma : vm_area_struct)
  : list Z :=
  match get_obj_offset p "_bash_hash_table" "nbuckets" with
  | Some nbo => accepted_tables p vm nbo (vm_start heap_vma) (vm_end heap_vma)
  | None => []
  end.

(** Two runs agree up to the correspondence of the yielded entries. *)
Inductive outcome_rel {A B : Type} (Q : A -> B -> Prop) : outcome A -> outcome B -> Prop :=
| rel_yields (l1 : list A) (l2 : list B) :
    Forall2 Q l1 l2 -> outcome_rel Q (Yields l1) (Yields l2)
| rel_raises : outcome_rel Q Raises Raises
| rel_running : outcome_rel Q Running Running.

(** The correspondence between the entries of the two-entry image laid out
    with narrow pointers and with wide ones. *)
Definition two_entry_correspondence (a b : Z) : Prop :=
  (a = 0x1400 /\ b = 0x1400) \/ (a = 0x1440 /\ b = 0x1440).

(** The catalog [modification] installs for a profile: the narrow one when
    the memory model is ["32bit"] or is not given, the wide one otherwise. *)
Definition chosen_catalog (profile : Profile) : dict struct_def :=
  if String.eqb (dict_get_default (metadata profile) "memory_model" "32bit") "32bit"
  then bash_hash_vtypes_32
  else bash_hash_vtypes_64.

(** The test of the search for the heap region:
    [vma.vm_start <= task.mm.start_brk and vma.vm_end >= task.mm.brk]. *)
Definition covers_heap (task : task_struct) (vma : vm_area_struct) : bool :=
  (vm_start vma <=? mm_start_brk task) && (vm_end vma >=? mm_brk task).

(** The configuration with [SCAN_ALL] set. *)
Definition scan_all : Config := {| SCAN_ALL := true |}.

(** The processes named bash among yielded items. *)
Definition named_bash (item : task_struct * Object) : bool :=
  String.eqb (comm (fst item)) "bash".

(** [a] is an entry that the walk of the table at [table] yields: a live
    entry, passing the test that guards the yield, of a chain headed by one
    of the bucket cells of the table. *)
Definition table_entry (p : Profile) (vm : AddressSpace) (table a : Z) : Prop :=
  exists head nodes,
    In head (bucket_heads p vm table)
    /\ live_chain p vm head nodes
    /\ In a nodes
    /\ yield_condition p vm a = true.

(** [pdata.path.is_valid()] for the path data of the entry at [a]. *)
Definition path_resolves (p : Profile) (vm : AddressSpace) (a : Z) : bool :=
  match dereference vm (pointer_member p vm "bucket_contents" "data" a) with
  | Some pdata => pointer_is_valid vm (pointer_member p vm "_pathdata" "path" pdata)
  | None => false
  end.

(** The specification's wording of the round-trip image: a valid table at
    [table] inside the scanned region, exactly one populated bucket, whose
    chain is the entry [a1] followed by the entry [a2], found 3 times and
    once, both with data and key pointers that resolve, with flags 0 and 2. *)
Definition spec_two_entry_image (p : Profile) (vm : AddressSpace)
           (heap_vma : vm_area_struct) (table a1 a2 : Z) : Prop :=
  vm_start heap_vma <= table < vm_end heap_vma
  /\ htable_is_valid p vm table = true
  /\ (exists i, (i <= 63)%nat
                /\ bucket_heads p vm table
                   = repeat None i ++ [Some a1] ++ repeat None (63 - i))
  /\ bucket_next p vm a1 = Some a2
  /\ bucket_next p vm a2 = None
  /\ int_member p vm "bucket_contents" "times_found" a1 = Some 3
  /\ int_member p vm "bucket_contents" "times_found" a2 = Some 1
  /\ pointer_is_valid vm (pointer_member p vm "bucket_contents" "data" a1) = true
  /\ pointer_is_valid vm (pointer_member p vm "bucket_contents" "key" a1) = true
  /\ pointer_is_valid vm (pointer_member p vm "bucket_contents" "data" a2) = true
  /\ pointer_is_valid vm (pointer_member p vm "bucket_contents" "key" a2) = true
  /\ entry_flags p vm a1 = Some 0
  /\ entry_flags p vm a2 = Some 2.

(** The two-entry table again, the path pointer of its second entry null. *)
Definition pathless_patches (w : nat) : patches :=
  [ (0x1010, enc_table w 0x1100 64 2);
    (0x1100 + 5 * Z.of_nat w, le_bytes w 0x1400);
    (0x1400, enc_bucket w 0x1440 0x1500 0x1480 7 3);
    (0x1440, enc_bucket w 0 0x1520 0x14a0 9 1);
    (0x1480, enc_pathdata w 0x1540 0);
    (0x14a0, enc_pathdata w 0 2);
    (0x1500, ascii_bytes "ls");
    (0x1520, ascii_bytes "cat");
    (0x1540, ascii_bytes "/bin/ls") ].

Definition pathless_image32 : AddressSpace := image 0x1000 0x3000 (pathless_patches 4).

(** One table whose bucket 5 chains two entries stored one after the other:
    the second of the chain at 0x1400, with hash 0x1100 and 64 hits, and
    right behind it the first of the chain, found 3 times. *)
Definition coincident_patches (w : nat) : patches :=
  [ (0x1010, enc_table w 0x1100 64 2);
    (0x1100 + 5 * Z.of_nat w, le_bytes w (0x1400 + 3 * Z.of_nat w + 8));
    (0x1400, enc_bucket w 0 0x1520 0x14a0 0x1100 64);
    (0x1400 + 3 * Z.of_nat w + 8, enc_bucket w 0x1400 0x1500 0x1480 7 3);
    (0x1480, enc_pathdata w 0x1540 0);
    (0x14a0, enc_pathdata w 0x1560 2);
    (0x1500, ascii_bytes "ls");
    (0x1520, ascii_bytes "cat");
    (0x1540, ascii_bytes "/bin/ls");
    (0x1560, ascii_bytes "/bin/cat") ].

Definition coincident_image32 : AddressSpace := image 0x1000 0x3000 (coincident_patches 4).
Definition coincident_image64 : AddressSpace := image 0x1000 0x3000 (coincident_patches 8).

(** The correspondence between the entries of the two layouts of that table. *)
Definition coincident_correspondence (a b : Z) : Prop :=
  (a = 0x1414 /\ b = 0x1420) \/ (a = 0x1400 /\ b = 0x1400).

(** Modelled from the spec: the injection of a ReadFailure into an address
    space: the [len] bytes from [addr] on can no longer be read. *)
Definition inject_failure (vm : AddressSpace) (addr len : Z) : AddressSpace :=
  fun a => if (addr <=? a) && (a <? addr + len) then None else vm a.

(** The two-entry image with the four bytes at 0x1004 made unreadable. *)
Definition holed_image32 : AddressSpace := inject_failure image32 0x1004 4.

(** * Properties *)

(** ** [range] *)

Lemma range_In (lo hi o : Z) : In o (range lo hi) <-> lo <= o < hi.
Proof.
  unfold range. rewrite in_map_iff. split.
  - intros [i [Hi Hin]]. apply in_seq in Hin. lia.
  - intros H. exists (Z.to_nat (o - lo)). split; [lia|].
    apply in_seq. lia.
Qed.

Lemma range_empty (lo hi : Z) : hi <= lo -> range lo hi = [].
Proof.
  intros H. unfold range.
  replace (Z.to_nat (hi - lo)) with 0%nat by lia. reflexivity.
Qed.

Lemma range_cons (lo hi : Z) : lo < hi -> range lo hi = lo :: range (lo + 1) hi.
Proof.
  intros H. unfold range.
  replace (Z.to_nat (hi - lo)) with (S (Z.to_nat (hi - (lo + 1)))) by lia.
  cbn [seq map]. f_equal; [lia|].
  rewrite <- seq_shift, map_map.
  apply map_ext. intros i. lia.
Qed.

Lemma seq_from (k n : nat) : map (fun i => (k + i)%nat) (seq 0 n) = seq k n.
Proof.
  revert k. induction n as [|n IH]; intros k; [reflexivity|].
  cbn [seq map]. f_equal; [lia|].
  rewrite <- (IH (S k)), <- seq_shift, map_map. apply map_ext. intros i. lia.
Qed.

Lemma range_app (lo mid hi : Z) :
  lo <= mid <= hi -> range lo hi = range lo mid ++ range mid hi.
Proof.
  intros H. unfold range.
  replace (Z.to_nat (hi - lo)) with (Z.to_nat (mid - lo) + Z.to_nat (hi - mid))%nat by lia.
  rewrite seq_app, map_app. f_equal.
  cbn [plus]. rewrite <- seq_from, map_map.
  apply map_ext. intros i. lia.
Qed.

Lemma range_split (lo hi o : Z) :
  lo <= o < hi -> range lo hi = range lo o ++ o :: range (o + 1) hi.
Proof.
  intros H. rewrite (range_app lo o hi) by lia.
  rewrite (range_cons o hi) by lia. reflexivity.
Qed.

Lemma range_NoDup (lo hi : Z) : NoDup (range lo hi).
Proof.
  unfold range. apply Injective_map_NoDup.
  - intros i j Hij. lia.
  - apply seq_NoDup.
Qed.

(** ** The reader *)

Lemma read_n_length (vm : AddressSpace) (n : nat) :
  forall addr bs, read_n vm addr n = Some bs -> List.length bs = n.
Proof.
  induction n as [|n IH]; intros addr bs H; cbn in H.
  - injection H as <-. reflexivity.
  - destruct (vm addr) as [b|]; [|discriminate].
    destruct (read_n vm (addr + 1) n) as [rest|] eqn:E; [|discriminate].
    injection H as <-. cbn. f_equal. eauto.
Qed.

Lemma zread_length (vm : AddressSpace) (addr len : Z) :
  List.length (zread vm addr len) = Z.to_nat len.
Proof.
  unfold zread, read. destruct (read_n vm addr (Z.to_nat len)) eqn:E.
  - eapply read_n_length; eauto.
  - apply repeat_length.
Qed.

Lemma unpack_I_zread (vm : AddressSpace) (addr : Z) :
  unpack_I (zread vm addr 4) = Some (le_unsigned (zread vm addr 4)).
Proof.
  unfold unpack_I. rewrite zread_length. reflexivity.
Qed.

Lemma zread_of_read (vm : AddressSpace) (addr len : Z) (bs : list byte) :
  read vm addr len = Some bs -> zread vm addr len = bs.
Proof. unfold zread. intros ->. reflexivity. Qed.

Lemma zread_of_failure (vm : AddressSpace) (addr : Z) :
  read vm addr 4 = None -> unpack_I (zread vm addr 4) = Some 0.
Proof. unfold zread. intros ->. reflexivity. Qed.

Lemma read_first_mapped (vm : AddressSpace) (addr len : Z) (bs : list byte) :
  0 < len -> read vm addr len = Some bs -> is_valid_address vm addr = true.
Proof.
  unfold read, is_valid_address. intros Hlen H.
  destruct (Z.to_nat len) as [|n] eqn:E; [lia|].
  cbn in H. destruct (vm addr); [reflexivity|discriminate].
Qed.

Lemma byte_val_range (b : byte) : 0 <= byte_val b < 256.
Proof.
  unfold byte_val. pose proof (Byte.to_N_bounded b) as H.
  split; [apply N2Z.is_nonneg|]. lia.
Qed.

Lemma le_unsigned_range (bs : list byte) :
  0 <= le_unsigned bs < 256 ^ Z.of_nat (List.length bs).
Proof.
  induction bs as [|b bs IH].
  - cbn. lia.
  - cbn [le_unsigned List.length]. rewrite Nat2Z.inj_succ, Z.pow_succ_r by lia.
    pose proof (byte_val_range b). lia.
Qed.

(** A four-byte cell reads as the signed integer 64 exactly when it reads
    as the unsigned integer 64. *)
Lemma signed_64_iff (bs : list byte) :
  List.length bs = 4%nat -> (to_signed32 (le_unsigned bs) = 64 <-> le_unsigned bs = 64).
Proof.
  intros Hlen. pose proof (le_unsigned_range bs) as H. rewrite Hlen in H.
  unfold to_signed32. change (256 ^ Z.of_nat 4) with 4294967296 in H.
  change (2 ^ 31) with 2147483648. change (2 ^ 32) with 4294967296.
  destruct (le_unsigned bs <? 2147483648) eqn:E; [tauto|].
  apply Z.ltb_ge in E. lia.
Qed.

(** ** Algebra of generators *)

Lemma and_then_nil_l {A : Type} (o : outcome A) : and_then (Yields []) o = o.
Proof. destruct o; reflexivity. Qed.

Lemma and_then_nil_r {A : Type} (o : outcome A) : and_then o (Yields []) = o.
Proof. destruct o; cbn; [rewrite app_nil_r|..]; reflexivity. Qed.

Lemma and_then_assoc {A : Type} (a b c : outcome A) :
  and_then (and_then a b) c = and_then a (and_then b c).
Proof.
  destruct a, b, c; cbn; try reflexivity. rewrite app_assoc. reflexivity.
Qed.

Lemma for_each_app {A B : Type} (body : A -> outcome B) (xs ys : list A) :
  for_each body (xs ++ ys) = and_then (for_each body xs) (for_each body ys).
Proof.
  induction xs as [|x xs IH]; cbn.
  - symmetry. apply and_then_nil_l.
  - unfold for_each in IH. rewrite IH, and_then_assoc. reflexivity.
Qed.

Lemma for_each_cons {A B : Type} (body : A -> outcome B) (x : A) (xs : list A) :
  for_each body (x :: xs) = and_then (body x) (for_each body xs).
Proof. reflexivity. Qed.

Lemma for_each_filter {A B : Type} (keep : A -> bool) (body body' : A -> outcome B)
      (xs : list A) :
  (forall x, keep x = false -> body x = Yields []) ->
  (forall x, keep x = true -> body x = body' x) ->
  for_each body xs = for_each body' (filter keep xs).
Proof.
  intros Hskip Hkeep. induction xs as [|x xs IH]; [reflexivity|].
  rewrite for_each_cons. cbn [filter]. destruct (keep x) eqn:E.
  - rewrite for_each_cons, IH, Hkeep by assumption. reflexivity.
  - rewrite Hskip, and_then_nil_l by assumption. exact IH.
Qed.

Lemma for_each_never_raises {A B : Type} (body : A -> outcome B) (xs : list A) :
  (forall x, body x <> Raises) -> for_each body xs <> Raises.
Proof.
  intros H. induction xs as [|x xs IH]; [discriminate|].
  rewrite for_each_cons. specialize (H x).
  destruct (body x), (for_each body xs); cbn; congruence.
Qed.

Lemma for_each_all_nil {A B : Type} (body : A -> outcome B) (xs : list A) :
  (forall x, In x xs -> body x = Yields []) -> for_each body xs = Yields [].
Proof.
  induction xs as [|x xs IH]; intros H; [reflexivity|].
  rewrite for_each_cons, H, and_then_nil_l by (left; reflexivity).
  apply IH. intros y Hy. apply H. right. exact Hy.
Qed.

(** ** The two layouts *)

Lemma linux_profile_layout (memory_model : option string) :
  let p := linux_profile memory_model in
  object_classes p = [("_bash_hash_table", class_bash_hash_table)]
  /\ ((vtypes p = bash_hash_vtypes_32 /\ pointer_size p = 4)
      \/ (vtypes p = bash_hash_vtypes_64 /\ pointer_size p = 8)).
Proof.
  unfold linux_profile, modification, pointer_size.
  destruct memory_model as [m|]; cbn.
  - destruct (String.eqb m "32bit"); auto.
  - auto.
Qed.

Lemma offsets_32 (p : Profile) :
  vtypes p = bash_hash_vtypes_32 ->
  get_obj_offset p "_bash_hash_table" "bucket_array" = Some 0
  /\ get_obj_offset p "_bash_hash_table" "nbuckets" = Some 4
  /\ get_obj_offset p "_bash_hash_table" "nentries" = Some 8
  /\ get_obj_offset p "bucket_contents" "next" = Some 0
  /\ get_obj_offset p "bucket_contents" "key" = Some 4
  /\ get_obj_offset p "bucket_contents" "data" = Some 8
  /\ get_obj_offset p "bucket_contents" "times_found" = Some 16
  /\ get_obj_offset p "_pathdata" "path" = Some 0
  /\ get_obj_offset p "_pathdata" "flags" = Some 4.
Proof.
  intros H. unfold get_obj_offset. rewrite H. repeat split; reflexivity.
Qed.

Lemma offsets_64 (p : Profile) :
  vtypes p = bash_hash_vtypes_64 ->
  get_obj_offset p "_bash_hash_table" "bucket_array" = Some 0
  /\ get_obj_offset p "_bash_hash_table" "nbuckets" = Some 8
  /\ get_obj_offset p "_bash_hash_table" "nentries" = Some 12
  /\ get_obj_offset p "bucket_contents" "next" = Some 0
  /\ get_obj_offset p "bucket_contents" "key" = Some 8
  /\ get_obj_offset p "bucket_contents" "data" = Some 16
  /\ get_obj_offset p "bucket_contents" "times_found" = Some 28
  /\ get_obj_offset p "_pathdata" "path" = Some 0
  /\ get_obj_offset p "_pathdata" "flags" = Some 8.
Proof.
  intros H. unfold get_obj_offset. rewrite H. repeat split; reflexivity.
Qed.

(** Under either layout the table header has its three members, with
    [bucket_array] first and a pointer cell that is not empty. *)
Lemma table_header_layout (memory_model : option string) :
  let p := linux_profile memory_model in
  exists nb ne,
    get_obj_offset p "_bash_hash_table" "bucket_array" = Some 0
    /\ get_obj_offset p "_bash_hash_table" "nbuckets" = Some nb
    /\ get_obj_offset p "_bash_hash_table" "nentries" = Some ne
    /\ nb <> ne
    /\ 0 < pointer_size p.
Proof.
  intros p. destruct (linux_profile_layout memory_model) as [_ [[Hvt Hps]|[Hvt Hps]]];
    fold p in Hvt, Hps; rewrite Hps.
  - destruct (offsets_32 p Hvt) as (Ha & Hb & Hc & _).
    exists 4, 8. repeat split; auto; lia.
  - destruct (offsets_64 p Hvt) as (Ha & Hb & Hc & _).
    exists 8, 12. repeat split; auto; lia.
Qed.

(** ** The scan loop runs the validator on the candidates only *)

Lemma scan_offset_prefilter (p : Profile) (vm : AddressSpace) (fuel : nat)
      (nbo off : Z) :
  scan_offset p vm fuel nbo off =
    if prefilter vm nbo off then validate_and_walk p vm fuel off else Yields [].
Proof.
  unfold scan_offset, prefilter, validate_and_walk.
  rewrite unpack_I_zread.
  destruct (le_unsigned (zread vm (off + nbo) 4) =? 64); reflexivity.
Qed.

Lemma scan_heap_candidates (p : Profile) (vm : AddressSpace) (fuel : nat)
      (nbo lo hi : Z) :
  scan_heap p vm fuel nbo lo hi =
    for_each (validate_and_walk p vm fuel) (candidates vm nbo lo hi).
Proof.
  unfold scan_heap, candidates. apply for_each_filter.
  - intros off H. rewrite scan_offset_prefilter, H. reflexivity.
  - intros off H. rewrite scan_offset_prefilter, H. reflexivity.
Qed.

Lemma scan_heap_accepted (p : Profile) (vm : AddressSpace) (fuel : nat)
      (nbo lo hi : Z) :
  scan_heap p vm fuel nbo lo hi =
    for_each (walk_table p vm fuel) (accepted_tables p vm nbo lo hi).
Proof.
  rewrite scan_heap_candidates. unfold accepted_tables. apply for_each_filter.
  - intros off H. unfold validate_and_walk. rewrite H. reflexivity.
  - intros off H. unfold validate_and_walk. rewrite H. reflexivity.
Qed.

Lemma prefilter_true_iff (vm : AddressSpace) (nbo off : Z) :
  prefilter vm nbo off = true <-> unpack_I (zread vm (off + nbo) 4) = Some 64.
Proof.
  unfold prefilter. rewrite unpack_I_zread. split.
  - intros H. apply Z.eqb_eq in H. congruence.
  - intros H. injection H as ->. reflexivity.
Qed.

Lemma candidates_In (vm : AddressSpace) (nbo lo hi o : Z) :
  In o (candidates vm nbo lo hi) <->
  lo <= o < hi /\ unpack_I (zread vm (o + nbo) 4) = Some 64.
Proof.
  unfold candidates. rewrite filter_In, range_In, prefilter_true_iff. tauto.
Qed.

(** ** The validator *)

Lemma reject_any_is_and (a b c d : bool) :
  (if (negb a || negb b || negb c || negb d)%bool then false else true)
  = (a && b && c && d)%bool.
Proof. destruct a, b, c, d; reflexivity. Qed.

Lemma int_test_eq (x : option Z) (v : Z) :
  match x with Some n => n =? v | None => false end = true <-> x = Some v.
Proof.
  destruct x as [n|]; [|split; discriminate].
  rewrite Z.eqb_eq. split; congruence.
Qed.

Lemma int_test_gt (x : option Z) (v : Z) :
  match x with Some n => n >? v | None => false end = true <->
  exists n, x = Some n /\ v < n.
Proof.
  destruct x as [n|].
  - rewrite Z.gtb_ltb, Z.ltb_lt. split.
    + intros H. exists n. auto.
    + intros (m & Hm & Hlt). injection Hm as ->. exact Hlt.
  - split; [discriminate|]. intros (m & Hm & _). discriminate.
Qed.

Lemma bash_hash_table_is_valid_iff (p : Profile) (vm : AddressSpace) (off : Z) :
  bash_hash_table_is_valid p vm off = true <->
  CType_is_valid vm off = true
  /\ pointer_is_valid vm (pointer_member p vm "_bash_hash_table" "bucket_array" off) = true
  /\ int_member p vm "_bash_hash_table" "nbuckets" off = Some 64
  /\ (exists n, int_member p vm "_bash_hash_table" "nentries" off = Some n /\ 1 < n).
Proof.
  unfold bash_hash_table_is_valid.
  rewrite reject_any_is_and, !andb_true_iff, int_test_eq, int_test_gt.
  tauto.
Qed.

Lemma htable_is_valid_linux (memory_model : option string) (vm : AddressSpace) (off : Z) :
  htable_is_valid (linux_profile memory_model) vm off
  = bash_hash_table_is_valid (linux_profile memory_model) vm off.
Proof.
  unfold htable_is_valid.
  destruct (linux_profile_layout memory_model) as [-> _]. reflexivity.
Qed.

Lemma int_member_at (p : Profile) (vm : AddressSpace) (name member : string)
      (base o : Z) :
  get_obj_offset p name member = Some o ->
  int_member p vm name member base = read_int vm (base + o).
Proof. unfold int_member, member_addr. intros ->. reflexivity. Qed.

Lemma pointer_member_at (p : Profile) (vm : AddressSpace) (name member : string)
      (base o : Z) :
  get_obj_offset p name member = Some o ->
  pointer_member p vm name member base = read_pointer p vm (base + o).
Proof. unfold pointer_member, member_addr. intros ->. reflexivity. Qed.

(** A cell that holds the signed integer 64 passes the prefilter. *)
Lemma read_int_64_prefilter (vm : AddressSpace) (addr : Z) :
  read_int vm addr = Some 64 -> unpack_I (zread vm addr 4) = Some 64.
Proof.
  unfold read_int. destruct (read vm addr 4) as [bs|] eqn:E; [|discriminate].
  cbn. intros H. injection H as H.
  rewrite unpack_I_zread, (zread_of_read _ _ _ _ E). f_equal.
  apply signed_64_iff; [|exact H].
  unfold read in E. apply read_n_length in E. exact E.
Qed.

(** C1 (as amended): an offset of the scanned range is a candidate exactly
    when the four bytes read at the offset of the bucket count ([nbuckets]),
    taken as a little-endian unsigned integer, are 64; and the scan loop
    runs the validator on the candidates and on nothing else. *)
Theorem candidate_iff_bucket_count_cell (memory_model : option string)
        (vm : AddressSpace) (lo hi : Z) :
  let p := linux_profile memory_model in
  (forall o, is_candidate p vm lo hi o <->
             lo <= o < hi
             /\ exists cell, code_prefilter_cell p o = Some cell
                             /\ unpack_I (zread vm cell 4) = Some 64)
  /\ (exists nbo, get_obj_offset p "_bash_hash_table" "nbuckets" = Some nbo
                  /\ forall fuel, scan_heap p vm fuel nbo lo hi
                                  = for_each (validate_and_walk p vm fuel)
                                             (candidates vm nbo lo hi)).
Proof.
  intros p. destruct (table_header_layout memory_model) as (nb & ne & _ & Hnb & _).
  fold p in Hnb. split.
  - intros o. unfold is_candidate, code_prefilter_cell. rewrite Hnb. cbn. split.
    + intros (nbo & Hoff & Hin). injection Hoff as <-.
      apply candidates_In in Hin. destruct Hin as [Hr Hc].
      split; [exact Hr|]. exists (o + nb). auto.
    + intros (Hr & cell & Hcell & Hc). injection Hcell as <-.
      exists nb. split; [reflexivity|]. apply candidates_In. auto.
  - exists nb. split; [exact Hnb|]. intros fuel. apply scan_heap_candidates.
Qed.

(** C1 (as stated) fails: in the two-entry image the table at 0x1010 is a
    candidate although the cell of its entry count does not hold 64. *)
Lemma candidate_not_entry_count_cell :
  ~ (forall o, is_candidate profile32 image32 0x1000 0x2000 o <->
               0x1000 <= o < 0x2000
               /\ exists cell, spec_prefilter_cell profile32 o = Some cell
                               /\ unpack_I (zread image32 cell 4) = Some 64).
Proof.
  intros H. specialize (H 0x1010). destruct H as [H _].
  destruct H as (_ & cell & Hcell & Hc).
  - exists 4. split; [reflexivity|]. apply candidates_In.
    split; [lia|]. vm_compute. reflexivity.
  - vm_compute in Hcell. injection Hcell as <-.
    vm_compute in Hc. discriminate.
Qed.

(** C5 (as amended): an offset whose bucket-count cell ([nbuckets]) does not
    read as 64 is rejected by the validator itself, is not among the
    accepted tables of any scanned range, and yields nothing. *)
Theorem prefilter_sound (memory_model : option string) (vm : AddressSpace)
        (o cell : Z) :
  let p := linux_profile memory_model in
  code_prefilter_cell p o = Some cell ->
  unpack_I (zread vm cell 4) <> Some 64 ->
  htable_is_valid p vm o = false
  /\ (forall lo hi, ~ is_accepted p vm lo hi o)
  /\ (forall fuel nbo, get_obj_offset p "_bash_hash_table" "nbuckets" = Some nbo ->
                       scan_offset p vm fuel nbo o = Yields []).
Proof.
  intros p Hcell Hne. unfold code_prefilter_cell in Hcell.
  destruct (get_obj_offset p "_bash_hash_table" "nbuckets") as [nb|] eqn:Hnb;
    [|discriminate].
  cbn in Hcell. injection Hcell as <-.
  assert (Hinv : htable_is_valid p vm o = false).
  { destruct (htable_is_valid p vm o) eqn:E; [|reflexivity]. exfalso.
    unfold p in E. rewrite htable_is_valid_linux in E.
    apply bash_hash_table_is_valid_iff in E. destruct E as (_ & _ & H64 & _).
    fold p in H64. rewrite (int_member_at p vm _ _ o nb Hnb) in H64.
    apply Hne, read_int_64_prefilter, H64. }
  split; [exact Hinv|]. split.
  - intros lo hi (nbo & Hoff & Hin). unfold accepted_tables in Hin.
    apply filter_In in Hin. destruct Hin as [_ Hv]. congruence.
  - intros fuel nbo Hoff. rewrite scan_offset_prefilter.
    unfold validate_and_walk. rewrite Hinv.
    destruct (prefilter vm nbo o); reflexivity.
Qed.

Lemma prefilter_sound_witness :
  code_prefilter_cell (linux_profile (Some "32bit")) 0x1000 = Some 0x1004
  /\ unpack_I (zread image32 0x1004 4) <> Some 64
  /\ htable_is_valid (linux_profile (Some "32bit")) image32 0x1000 = false.
Proof.
  assert (Hc : code_prefilter_cell (linux_profile (Some "32bit")) 0x1000 = Some 0x1004)
    by reflexivity.
  assert (Hn : unpack_I (zread image32 0x1004 4) <> Some 64)
    by (vm_compute; discriminate).
  split; [exact Hc|]. split; [exact Hn|].
  exact (proj1 (prefilter_sound (Some "32bit") image32 0x1000 0x1004 Hc Hn)).
Defined.

(** C5 (as stated) fails: the table of the two-entry image has an entry
    count of 2, so the cell of its entry count does not hold 64, and the
    validator accepts it. *)
Lemma entry_count_prefilter_unsound :
  ~ (forall vm lo hi o cell,
        spec_prefilter_cell profile32 o = Some cell ->
        unpack_I (zread vm cell 4) <> Some 64 ->
        ~ is_accepted profile32 vm lo hi o).
Proof.
  intros H.
  apply (H image32 0x1000 0x2000 0x1010 0x1018).
  - reflexivity.
  - vm_compute. discriminate.
  - exists 4. split; [reflexivity|]. vm_compute. left. reflexivity.
Qed.

(** A pointer member that resolves was read, so its first byte is mapped. *)
Lemma pointer_valid_cell_mapped (p : Profile) (vm : AddressSpace) (addr : Z) :
  0 < pointer_size p ->
  pointer_is_valid vm (read_pointer p vm addr) = true ->
  is_valid_address vm addr = true.
Proof.
  intros Hps H. unfold read_pointer in H.
  destruct (read vm addr (pointer_size p)) as [bs|] eqn:E; [|discriminate].
  eapply read_first_mapped; eauto.
Qed.

(** C2: under either layout the validator accepts the view at [off] exactly
    when its bucket-array pointer resolves, its bucket count is 64 and its
    entry count is greater than 1; a rejected offset yields no result. *)
Theorem validator_accepts_iff (memory_model : option string) (vm : AddressSpace)
        (off : Z) :
  let p := linux_profile memory_model in
  (htable_is_valid p vm off = true <->
   pointer_is_valid vm (pointer_member p vm "_bash_hash_table" "bucket_array" off) = true
   /\ int_member p vm "_bash_hash_table" "nbuckets" off = Some 64
   /\ (exists n, int_member p vm "_bash_hash_table" "nentries" off = Some n /\ 1 < n))
  /\ (forall fuel nbo, htable_is_valid p vm off = false ->
                       scan_offset p vm fuel nbo off = Yields []).
Proof.
  intros p. split.
  - unfold p. rewrite htable_is_valid_linux, bash_hash_table_is_valid_iff. fold p.
    split; [tauto|]. intros (Hptr & Hnb & Hne). repeat split; auto.
    destruct (table_header_layout memory_model) as (nb & ne & Hba & _ & _ & _ & Hps).
    fold p in Hba, Hps.
    rewrite (pointer_member_at p vm _ _ off 0 Hba) in Hptr.
    apply pointer_valid_cell_mapped in Hptr; [|exact Hps].
    unfold CType_is_valid. rewrite Z.add_0_r in Hptr. exact Hptr.
  - intros fuel nbo H. rewrite scan_offset_prefilter.
    unfold validate_and_walk. rewrite H.
    destruct (prefilter vm nbo off); reflexivity.
Qed.

(** ** Chain traversal *)

Section Chains.
Variable p : Profile.
Variable vm : AddressSpace.

Lemma while_chain_live (b : option Z) (nodes : list Z) :
  live_chain p vm b nodes ->
  forall fuel, (List.length nodes <= fuel)%nat ->
  while_chain p vm fuel b = Yields (filter (yield_condition p vm) nodes).
Proof.
  induction 1 as [|a Hc|a nodes Hc Hl IH]; intros fuel Hfuel.
  - destruct fuel; reflexivity.
  - destruct fuel; cbn; rewrite Hc; reflexivity.
  - destruct fuel as [|fuel]; [cbn in Hfuel; lia|].
    cbn [while_chain]. rewrite Hc, IH by (cbn in Hfuel; lia).
    cbn. destruct (yield_condition p vm a); reflexivity.
Qed.

Lemma while_chain_short (b : option Z) (nodes : list Z) :
  live_chain p vm b nodes ->
  forall fuel, (fuel < List.length nodes)%nat ->
  while_chain p vm fuel b = Running.
Proof.
  induction 1 as [|a Hc|a nodes Hc Hl IH]; intros fuel Hfuel.
  - cbn in Hfuel. lia.
  - cbn in Hfuel. lia.
  - destruct fuel as [|fuel]; cbn [while_chain]; rewrite Hc; [reflexivity|].
    rewrite IH by (cbn in Hfuel; lia). reflexivity.
Qed.

Lemma and_then_yields_inv {A : Type} (x y : outcome A) (rows : list A) :
  and_then x y = Yields rows ->
  exists r1 r2, x = Yields r1 /\ y = Yields r2 /\ rows = r1 ++ r2.
Proof.
  destruct x as [r1| |], y as [r2| |]; cbn; try discriminate.
  intros H. injection H as <-. eauto.
Qed.

Lemma while_chain_yields_inv (fuel : nat) :
  forall b rows,
  while_chain p vm fuel b = Yields rows ->
  exists nodes, live_chain p vm b nodes
                /\ (List.length nodes <= fuel)%nat
                /\ rows = filter (yield_condition p vm) nodes.
Proof.
  induction fuel as [|fuel IH]; intros b rows H.
  - destruct b as [a|]; cbn in H.
    + destruct (loop_condition p vm a) eqn:Hc; [discriminate|].
      injection H as <-. exists []. repeat split; auto using chain_stop.
    + injection H as <-. exists []. repeat split; auto using chain_null.
  - destruct b as [a|]; cbn [while_chain] in H.
    + destruct (loop_condition p vm a) eqn:Hc.
      * apply and_then_yields_inv in H.
        destruct H as (r1 & r2 & Hr1 & Hr2 & ->).
        injection Hr1 as <-.
        destruct (IH _ _ Hr2) as (nodes & Hl & Hlen & ->).
        exists (a :: nodes). split; [apply chain_step; assumption|].
        split; [cbn; lia|]. cbn [filter].
        destruct (yield_condition p vm a); reflexivity.
      * injection H as <-. exists []. repeat split; auto using chain_stop.
        cbn. lia.
    + injection H as <-. exists []. repeat split; auto using chain_null.
      cbn. lia.
Qed.

Lemma while_chain_never_raises (fuel : nat) :
  forall b, while_chain p vm fuel b <> Raises.
Proof.
  induction fuel as [|fuel IH]; intros b; destruct b as [a|]; cbn [while_chain];
    try discriminate; destruct (loop_condition p vm a); try discriminate.
  specialize (IH (bucket_next p vm a)).
  destruct (while_chain p vm fuel (bucket_next p vm a)); cbn; congruence.
Qed.

Lemma live_chain_functional (b : option Z) (n1 n2 : list Z) :
  live_chain p vm b n1 -> live_chain p vm b n2 -> n1 = n2.
Proof.
  intros H1. revert n2.
  induction H1 as [|a Hc|a nodes Hc Hl IH]; intros n2 H2; inversion H2; subst;
    try reflexivity; try congruence.
  f_equal. apply IH. assumption.
Qed.

Lemma live_chain_suffix (b : option Z) (l1 l2 : list Z) (x : Z) :
  live_chain p vm b (l1 ++ x :: l2) -> live_chain p vm (Some x) (x :: l2).
Proof.
  revert b. induction l1 as [|y l1 IH]; intros b H; cbn in H.
  - inversion H; subst. apply chain_step; assumption.
  - inversion H; subst. eapply IH. eassumption.
Qed.

(** A chain that ends visits no node twice. *)
Lemma live_chain_NoDup (b : option Z) (nodes : list Z) :
  live_chain p vm b nodes -> NoDup nodes.
Proof.
  induction 1 as [|a Hc|a nodes Hc Hl IH]; try constructor; [|exact IH].
  intros Hin. apply in_split in Hin. destruct Hin as (l1 & l2 & ->).
  pose proof (live_chain_suffix _ _ _ _ Hl) as Hs.
  pose proof (chain_step p vm a _ Hc Hl) as Hfull.
  pose proof (live_chain_functional _ _ _ Hs Hfull) as Heq.
  apply (f_equal (@List.length Z)) in Heq.
  cbn in Heq. rewrite length_app in Heq. cbn in Heq. lia.
Qed.

Lemma filter_length_le {A : Type} (f : A -> bool) (l : list A) :
  (List.length (filter f l) <= List.length l)%nat.
Proof.
  induction l as [|x l IH]; cbn; [lia|]. destruct (f x); cbn; lia.
Qed.

Lemma loop_condition_iff (a : Z) :
  loop_condition p vm a = true <->
  (exists n, int_member p vm "bucket_contents" "times_found" a = Some n /\ 0 < n)
  /\ pointer_is_valid vm (pointer_member p vm "bucket_contents" "data" a) = true
  /\ pointer_is_valid vm (pointer_member p vm "bucket_contents" "key" a) = true.
Proof.
  unfold loop_condition. rewrite !andb_true_iff, int_test_gt. tauto.
Qed.

Lemma yield_condition_iff (a : Z) :
  yield_condition p vm a = true <->
  exists pdata,
    dereference vm (pointer_member p vm "bucket_contents" "data" a) = Some pdata
    /\ pointer_is_valid vm (pointer_member p vm "_pathdata" "path" pdata) = true
    /\ exists flags, int_member p vm "_pathdata" "flags" pdata = Some flags
                     /\ 0 <= flags <= 2.
Proof.
  unfold yield_condition.
  destruct (dereference vm (pointer_member p vm "bucket_contents" "data" a))
    as [pdata|].
  - rewrite andb_true_iff. split.
    + intros [Hp Hf]. exists pdata. split; [reflexivity|]. split; [exact Hp|].
      destruct (int_member p vm "_pathdata" "flags" pdata) as [f|]; [|discriminate].
      apply andb_true_iff in Hf. destruct Hf as [H0 H2].
      apply Z.leb_le in H0, H2. exists f. auto.
    + intros (pd & Hpd & Hp & f & Hf & Hr). injection Hpd as <-.
      split; [exact Hp|]. rewrite Hf. apply andb_true_iff.
      split; apply Z.leb_le; lia.
  - split; [discriminate|]. intros (pd & Hpd & _). discriminate.
Qed.
End Chains.

(** C3: traversal of a chain visits its live entries in order and stops at
    the first node that is null (its dereference failed) or fails the loop
    test; of the visited entries exactly those whose path pointer resolves
    and whose flags lie in [0, 2] are yielded, the others being skipped
    without ending the traversal. *)
Theorem chain_traversal_stops_and_filters (p : Profile) (vm : AddressSpace)
        (b : option Z) (nodes : list Z) (fuel : nat) :
  live_chain p vm b nodes ->
  (List.length nodes <= fuel)%nat ->
  while_chain p vm fuel b = Yields (filter (yield_condition p vm) nodes)
  /\ (forall a, loop_condition p vm a = true <->
        (exists n, int_member p vm "bucket_contents" "times_found" a = Some n /\ 0 < n)
        /\ pointer_is_valid vm (pointer_member p vm "bucket_contents" "data" a) = true
        /\ pointer_is_valid vm (pointer_member p vm "bucket_contents" "key" a) = true)
  /\ (forall a, yield_condition p vm a = true <->
        exists pdata,
          dereference vm (pointer_member p vm "bucket_contents" "data" a) = Some pdata
          /\ pointer_is_valid vm (pointer_member p vm "_pathdata" "path" pdata) = true
          /\ exists flags, int_member p vm "_pathdata" "flags" pdata = Some flags
                           /\ 0 <= flags <= 2).
Proof.
  intros Hl Hfuel. split; [apply while_chain_live; assumption|].
  split; intros a; [apply loop_condition_iff | apply yield_condition_iff].
Qed.

Lemma live_chain_step_to (p : Profile) (vm : AddressSpace) (a : Z)
      (b : option Z) (nodes : list Z) :
  loop_condition p vm a = true ->
  bucket_next p vm a = b ->
  live_chain p vm b nodes ->
  live_chain p vm (Some a) (a :: nodes).
Proof. intros Hc <- Hl. apply chain_step; assumption. Qed.

Lemma image32_chain : live_chain profile32 image32 (Some 0x1400) [0x1400; 0x1440].
Proof.
  apply (live_chain_step_to _ _ _ (Some 0x1440)); [reflexivity|reflexivity|].
  apply (live_chain_step_to _ _ _ None); [reflexivity|reflexivity|].
  apply chain_null.
Qed.

Lemma chain_traversal_stops_and_filters_witness :
  while_chain profile32 image32 2 (Some 0x1400)
  = Yields (filter (yield_condition profile32 image32) [0x1400; 0x1440]).
Proof.
  refine (proj1 (chain_traversal_stops_and_filters
                   profile32 image32 (Some 0x1400) [0x1400; 0x1440] 2 image32_chain _)).
  cbn. lia.
Defined.

Example skipped_entry_32 :
  yielded_offsets (calculate 3 only_bash profile32
                             [bash_task (image 0x1000 0x3000 (skipping_patches 4))])
  = Yields [0x1400; 0x1460].
Proof. vm_compute. reflexivity. Qed.

Example skipped_entry_64 :
  yielded_offsets (calculate 3 only_bash profile64
                             [bash_task (image 0x1000 0x3000 (skipping_patches 8))])
  = Yields [0x1400; 0x1460].
Proof. vm_compute. reflexivity. Qed.

Lemma cyclic_chain_runs (fuel : nat) :
  while_chain profile32 cyclic_image32 fuel (Some 0x1400) = Running.
Proof.
  assert (Hc : loop_condition profile32 cyclic_image32 0x1400 = true) by reflexivity.
  assert (Hn : bucket_next profile32 cyclic_image32 0x1400 = Some 0x1400) by reflexivity.
  induction fuel as [|fuel IH]; cbn [while_chain]; rewrite Hc; [reflexivity|].
  rewrite Hn, IH. reflexivity.
Qed.

(** C6 (as stated) fails: the chain headed by bucket 5 of the cyclic image,
    an entry with a positive count that is its own successor, is traversed
    without end. *)
Lemma cyclic_chain_never_ends :
  dereference_as_bucket profile32 cyclic_image32 (0x1100 + 5 * 4) = Some 0x1400
  /\ ~ (exists fuel rows,
          while_chain profile32 cyclic_image32 fuel
                      (dereference_as_bucket profile32 cyclic_image32 (0x1100 + 5 * 4))
          = Yields rows).
Proof.
  assert (Hd : dereference_as_bucket profile32 cyclic_image32 (0x1100 + 5 * 4)
               = Some 0x1400) by reflexivity.
  split; [exact Hd|]. rewrite Hd. intros (fuel & rows & H).
  rewrite cyclic_chain_runs in H. discriminate.
Qed.

(** C6 (as amended): the traversal of a chain ends exactly when the chain
    has finitely many live entries before a node that is null or fails the
    loop test; it then visits those entries once each, needs as many runs of
    the loop body as there are live entries, and yields at most that many
    results.  No traversal raises. *)
Theorem chain_terminates_iff_finite (p : Profile) (vm : AddressSpace) (b : option Z) :
  ((exists fuel rows, while_chain p vm fuel b = Yields rows)
   <-> (exists nodes, live_chain p vm b nodes))
  /\ (forall nodes, live_chain p vm b nodes ->
        NoDup nodes
        /\ (forall fuel, (List.length nodes <= fuel)%nat ->
              exists rows, while_chain p vm fuel b = Yields rows
                           /\ (List.length rows <= List.length nodes)%nat)
        /\ (forall fuel, (fuel < List.length nodes)%nat ->
              while_chain p vm fuel b = Running))
  /\ (forall fuel, while_chain p vm fuel b <> Raises).
Proof.
  split; [split|split].
  - intros (fuel & rows & H).
    destruct (while_chain_yields_inv p vm fuel b rows H) as (nodes & Hl & _).
    exists nodes. exact Hl.
  - intros (nodes & Hl). exists (List.length nodes), (filter (yield_condition p vm) nodes).
    apply while_chain_live; [exact Hl|lia].
  - intros nodes Hl. split; [eapply live_chain_NoDup; eassumption|]. split.
    + intros fuel Hfuel. exists (filter (yield_condition p vm) nodes).
      split; [apply while_chain_live; assumption|]. apply filter_length_le.
    + intros fuel Hfuel. eapply while_chain_short; eassumption.
  - intros fuel. apply while_chain_never_raises.
Qed.

(** ** More fuel never changes a finished run *)

Lemma while_chain_mono (p : Profile) (vm : AddressSpace) (b : option Z) :
  fuel_monotone (fun fuel => while_chain p vm fuel b).
Proof.
  intros fuel fuel' rows H Hle.
  destruct (while_chain_yields_inv p vm fuel b rows H) as (nodes & Hl & Hlen & ->).
  apply while_chain_live; [exact Hl|lia].
Qed.

Lemma for_each_mono {A B : Type} (body : nat -> A -> outcome B) (xs : list A) :
  (forall x, fuel_monotone (fun fuel => body fuel x)) ->
  fuel_monotone (fun fuel => for_each (body fuel) xs).
Proof.
  intros Hbody fuel fuel' rows H Hle. revert rows H.
  induction xs as [|x xs IH]; intros rows H; [exact H|].
  rewrite for_each_cons in H |- *.
  apply and_then_yields_inv in H. destruct H as (r1 & r2 & H1 & H2 & ->).
  rewrite (Hbody x fuel fuel' r1 H1 Hle), (IH r2 H2). reflexivity.
Qed.

Lemma map_outcome_mono {A B : Type} (f : A -> B) (run : nat -> outcome A) :
  fuel_monotone run -> fuel_monotone (fun fuel => map_outcome f (run fuel)).
Proof.
  intros Hrun fuel fuel' rows H Hle.
  destruct (run fuel) as [r| |] eqn:E; cbn in H; try discriminate.
  rewrite (Hrun fuel fuel' r E Hle). exact H.
Qed.

Lemma walk_table_mono (p : Profile) (vm : AddressSpace) (off : Z) :
  fuel_monotone (fun fuel => walk_table p vm fuel off).
Proof.
  unfold walk_table.
  destruct (pointer_member p vm "_bash_hash_table" "bucket_array" off) as [ba|].
  - apply (for_each_mono
             (fun fuel cell => while_chain p vm fuel (dereference_as_bucket p vm cell))).
    intros cell. apply while_chain_mono.
  - intros fuel fuel' rows H _. exact H.
Qed.

Lemma scan_heap_mono (p : Profile) (vm : AddressSpace) (nbo lo hi : Z) :
  fuel_monotone (fun fuel => scan_heap p vm fuel nbo lo hi).
Proof.
  intros fuel fuel' rows H Hle. rewrite scan_heap_accepted in H |- *.
  revert H Hle.
  apply (for_each_mono (fun fuel off => walk_table p vm fuel off)).
  intros off. apply walk_table_mono.
Qed.

Lemma scan_task_mono (config : Config) (p : Profile) (nbo : Z) (task : task_struct) :
  fuel_monotone (fun fuel => scan_task fuel config p nbo task).
Proof.
  unfold scan_task. destruct (scan_target config task) as [[proc_as heap_vma]|].
  - apply map_outcome_mono, scan_heap_mono.
  - intros fuel fuel' rows H _. exact H.
Qed.

Lemma calculate_mono (config : Config) (p : Profile) (tasks : list task_struct) :
  fuel_monotone (fun fuel => calculate fuel config p tasks).
Proof.
  unfold calculate.
  destruct (get_obj_offset p "_bash_hash_table" "nbuckets") as [nbo|].
  - apply (for_each_mono (fun fuel task => scan_task fuel config p nbo task)).
    intros task. apply scan_task_mono.
  - intros fuel fuel' rows H _. exact H.
Qed.

(** ** The two-entry image *)

Lemma image32_premises :
  accepted_tables profile32 image32 4 0x1000 0x2000 = [0x1010]
  /\ bucket_heads profile32 image32 0x1010
     = repeat None 5 ++ [Some 0x1400] ++ repeat None 58
  /\ map (entry_flags profile32 image32) [0x1400; 0x1440] = [Some 0; Some 2].
Proof. repeat split; vm_compute; reflexivity. Qed.

Lemma calculate_single (fuel : nat) (config : Config) (p : Profile) (nbo : Z)
      (task : task_struct) (proc_as : AddressSpace) (heap_vma : vm_area_struct) :
  get_obj_offset p "_bash_hash_table" "nbuckets" = Some nbo ->
  scan_target config task = Some (proc_as, heap_vma) ->
  calculate fuel config p [task]
  = map_outcome (fun a => (task, mkObject proc_as a))
                (scan_heap p proc_as fuel nbo (vm_start heap_vma) (vm_end heap_vma)).
Proof.
  intros Hoff Ht. unfold calculate. rewrite Hoff.
  cbn [for_each fold_right]. rewrite and_then_nil_r.
  unfold scan_task. rewrite Ht. reflexivity.
Qed.

Lemma bash_task_target (vm : AddressSpace) :
  scan_target only_bash (bash_task vm) = Some (vm, mkVma 0x1000 0x2000).
Proof. reflexivity. Qed.

Lemma image32_heap_scan :
  scan_heap profile32 image32 2 4 0x1000 0x2000 = Yields [0x1400; 0x1440].
Proof. vm_compute. reflexivity. Qed.

Lemma image32_run :
  calculate 2 only_bash profile32 [bash_task image32]
  = Yields [ (bash_task image32, mkObject image32 0x1400);
             (bash_task image32, mkObject image32 0x1440) ].
Proof.
  rewrite (calculate_single 2 only_bash profile32 4 _ _ _ eq_refl (bash_task_target image32)).
  cbn [vm_start vm_end]. rewrite image32_heap_scan. reflexivity.
Qed.

Lemma image32_hits :
  map row_hits
      (render_text profile32 [ (bash_task image32, mkObject image32 0x1400);
                               (bash_task image32, mkObject image32 0x1440) ])
  = [Some 3; Some 1].
Proof. vm_compute. reflexivity. Qed.

(** ** Read failures and skipped processes *)

Lemma prefilter_read_failure (vm : AddressSpace) (nbo o : Z) :
  read vm (o + nbo) 4 = None -> prefilter vm nbo o = false.
Proof.
  intros H. unfold prefilter. rewrite (zread_of_failure _ _ H). reflexivity.
Qed.

Lemma walk_table_never_raises (p : Profile) (vm : AddressSpace) (fuel : nat) (off : Z) :
  walk_table p vm fuel off <> Raises.
Proof.
  unfold walk_table.
  destruct (pointer_member p vm "_bash_hash_table" "bucket_array" off); [|discriminate].
  apply for_each_never_raises. intros cell. apply while_chain_never_raises.
Qed.

Lemma scan_heap_never_raises (p : Profile) (vm : AddressSpace) (fuel : nat)
      (nbo lo hi : Z) :
  scan_heap p vm fuel nbo lo hi <> Raises.
Proof.
  rewrite scan_heap_accepted. apply for_each_never_raises.
  intros off. apply walk_table_never_raises.
Qed.

Lemma scan_task_never_raises (fuel : nat) (config : Config) (p : Profile) (nbo : Z)
      (task : task_struct) :
  scan_task fuel config p nbo task <> Raises.
Proof.
  unfold scan_task. destruct (scan_target config task) as [[proc_as heap_vma]|];
    [|discriminate].
  pose proof (scan_heap_never_raises p proc_as fuel nbo (vm_start heap_vma)
                                     (vm_end heap_vma)) as H.
  destruct (scan_heap p proc_as fuel nbo (vm_start heap_vma) (vm_end heap_vma));
    cbn; congruence.
Qed.

Lemma scan_target_skipped (config : Config) (task : task_struct) :
  get_process_address_space task = None \/ find_heap_vma task = None ->
  scan_target config task = None.
Proof.
  unfold scan_target. intros [H|H]; rewrite H; [reflexivity|].
  destruct (get_process_address_space task); [|reflexivity].
  destruct (negb _); reflexivity.
Qed.

(** ** Process selection *)

(** ** The narrow and the wide layout *)

Lemma and_then_rel {A B : Type} (Q : A -> B -> Prop) (x1 y1 : outcome A)
      (x2 y2 : outcome B) :
  outcome_rel Q x1 x2 -> outcome_rel Q y1 y2 ->
  outcome_rel Q (and_then x1 y1) (and_then x2 y2).
Proof.
  intros Hx Hy. destruct Hx; destruct Hy; cbn; constructor.
  apply Forall2_app; assumption.
Qed.

Lemma for_each_rel {A A' B B' : Type} (P : A -> A' -> Prop) (Q : B -> B' -> Prop)
      (f : A -> outcome B) (g : A' -> outcome B') (xs : list A) (ys : list A') :
  (forall x y, P x y -> outcome_rel Q (f x) (g y)) ->
  Forall2 P xs ys ->
  outcome_rel Q (for_each f xs) (for_each g ys).
Proof.
  intros Hfg H. induction H as [|x y xs ys Hxy Hrest IH].
  - constructor. constructor.
  - rewrite !for_each_cons. apply and_then_rel; auto.
Qed.

Lemma for_each_map {A B C : Type} (g : A -> B) (f : B -> outcome C) (xs : list A) :
  for_each (fun x => f (g x)) xs = for_each f (map g xs).
Proof.
  induction xs as [|x xs IH]; [reflexivity|].
  cbn [map]. rewrite !for_each_cons, IH. reflexivity.
Qed.

Lemma walk_table_heads (p : Profile) (vm : AddressSpace) (fuel : nat) (off : Z) :
  walk_table p vm fuel off = for_each (while_chain p vm fuel) (bucket_heads p vm off).
Proof.
  unfold walk_table, bucket_heads.
  destruct (pointer_member p vm "_bash_hash_table" "bucket_array" off); [|reflexivity].
  apply (for_each_map (dereference_as_bucket p vm) (while_chain p vm fuel)).
Qed.

Lemma map_outcome_rel {A B C : Type} (Q : A -> B -> Prop) (f : A -> C) (g : B -> C)
      (o1 : outcome A) (o2 : outcome B) :
  (forall a b, Q a b -> f a = g b) ->
  outcome_rel Q o1 o2 ->
  map_outcome f o1 = map_outcome g o2.
Proof.
  intros Hfg H. destruct H as [l1 l2 H| |]; cbn; try reflexivity.
  f_equal. induction H as [|a b l1 l2 Hab _ IH]; cbn; [reflexivity|].
  rewrite (Hfg a b Hab), IH. reflexivity.
Qed.

Lemma map_outcome_compose {A B C : Type} (f : A -> B) (g : B -> C) (o : outcome A) :
  map_outcome g (map_outcome f o) = map_outcome (fun a => g (f a)) o.
Proof. destruct o; cbn; [rewrite map_map|..]; reflexivity. Qed.

Lemma dereference_valid (vm : AddressSpace) (ptr : option Z) :
  pointer_is_valid vm ptr = match dereference vm ptr with Some _ => true | None => false end.
Proof.
  unfold pointer_is_valid, dereference. destruct ptr as [v|]; [|reflexivity].
  destruct (is_valid_address vm v); reflexivity.
Qed.

Lemma String_str_valid (vm : AddressSpace) (ptr : option Z) :
  pointer_is_valid vm ptr = match String_str vm ptr with Some _ => true | None => false end.
Proof.
  rewrite dereference_valid. unfold String_str.
  destruct (dereference vm ptr); reflexivity.
Qed.

Section Simulation.
Variable R : Z -> Z -> Prop.
Variables vm32 vm64 : AddressSpace.
Hypothesis Hequiv : entries_equivalent R vm32 vm64.

Lemma loop_condition_agree (a b : Z) :
  R a b -> loop_condition profile32 vm32 a = loop_condition profile64 vm64 b.
Proof.
  intros Hab. destruct (Hequiv a b Hab) as (Htf & Hkey & Hpd & _).
  unfold loop_condition. rewrite Htf. f_equal; [f_equal|].
  - rewrite !dereference_valid. unfold pathdata_equivalent in Hpd.
    destruct (dereference vm32 _), (dereference vm64 _); tauto.
  - rewrite !String_str_valid, Hkey. reflexivity.
Qed.

Lemma yield_condition_agree (a b : Z) :
  R a b -> yield_condition profile32 vm32 a = yield_condition profile64 vm64 b.
Proof.
  intros Hab. destruct (Hequiv a b Hab) as (_ & _ & Hpd & _).
  unfold yield_condition. unfold pathdata_equivalent in Hpd.
  destruct (dereference vm32 _) as [x|], (dereference vm64 _) as [y|];
    try tauto.
  destruct Hpd as [Hflags Hpath]. rewrite Hflags, !String_str_valid, Hpath.
  reflexivity.
Qed.

Lemma while_chain_agree (fuel : nat) :
  forall b32 b64, bucket_rel R b32 b64 ->
  outcome_rel R (while_chain profile32 vm32 fuel b32) (while_chain profile64 vm64 fuel b64).
Proof.
  induction fuel as [|fuel IH]; intros [a|] [b|] Hb; cbn in Hb; try contradiction;
    cbn [while_chain]; try (constructor; constructor).
  - rewrite (loop_condition_agree a b Hb).
    destruct (loop_condition profile64 vm64 b); constructor. constructor.
  - rewrite (loop_condition_agree a b Hb).
    destruct (loop_condition profile64 vm64 b); [|constructor; constructor].
    apply and_then_rel.
    + rewrite (yield_condition_agree a b Hb).
      destruct (yield_condition profile64 vm64 b); repeat constructor. exact Hb.
    + apply IH. destruct (Hequiv a b Hb) as (_ & _ & _ & Hn). exact Hn.
Qed.

Lemma walk_table_agree (fuel : nat) (t32 t64 : Z) :
  tables_equivalent R vm32 vm64 t32 t64 ->
  outcome_rel R (walk_table profile32 vm32 fuel t32) (walk_table profile64 vm64 fuel t64).
Proof.
  intros Ht. rewrite !walk_table_heads.
  apply (for_each_rel (bucket_rel R) R); [|exact Ht].
  intros x y Hxy. apply while_chain_agree. exact Hxy.
Qed.

Lemma render_row_agree (task32 task64 : task_struct) (a b : Z) :
  pid task32 = pid task64 -> comm task32 = comm task64 -> R a b ->
  render_row profile32 (task32, mkObject vm32 a)
  = render_row profile64 (task64, mkObject vm64 b).
Proof.
  intros Hpid Hcomm Hab. destruct (Hequiv a b Hab) as (Htf & Hkey & Hpd & _).
  unfold render_row. cbn [obj_vm obj_offset]. rewrite Hpid, Hcomm, Htf, Hkey.
  f_equal. unfold pathdata_equivalent in Hpd.
  destruct (dereference vm32 _) as [x|], (dereference vm64 _) as [y|];
    try tauto.
Qed.
End Simulation.

(** C8: the narrow and the wide layout, run on buffers that are
    structurally equivalent under their respective layouts, render the same
    rows (pid, name, hits, key string, path string) in the same order, and
    agree as well on a run that does not end. *)
Theorem narrow_and_wide_agree (R : Z -> Z -> Prop) (config : Config) (fuel : nat)
        (task32 task64 : task_struct) (vm32 vm64 : AddressSpace)
        (heap32 heap64 : vm_area_struct) :
  pid task32 = pid task64 ->
  comm task32 = comm task64 ->
  scan_target config task32 = Some (vm32, heap32) ->
  scan_target config task64 = Some (vm64, heap64) ->
  entries_equivalent R vm32 vm64 ->
  Forall2 (tables_equivalent R vm32 vm64)
          (accepted_in profile32 vm32 heap32) (accepted_in profile64 vm64 heap64) ->
  map_outcome (render_row profile32) (calculate fuel config profile32 [task32])
  = map_outcome (render_row profile64) (calculate fuel config profile64 [task64]).
Proof.
  intros Hpid Hcomm Ht32 Ht64 Hequiv Htables.
  rewrite (calculate_single fuel config profile32 4 task32 vm32 heap32 eq_refl Ht32).
  rewrite (calculate_single fuel config profile64 8 task64 vm64 heap64 eq_refl Ht64).
  rewrite !map_outcome_compose.
  apply (map_outcome_rel R).
  - intros a b Hab. apply (render_row_agree R vm32 vm64 Hequiv); assumption.
  - rewrite !scan_heap_accepted.
    apply (for_each_rel (tables_equivalent R vm32 vm64) R); [|exact Htables].
    intros t32 t64 Ht. apply (walk_table_agree R vm32 vm64 Hequiv). exact Ht.
Qed.

Lemma two_entry_images_equivalent :
  entries_equivalent two_entry_correspondence image32 image64.
Proof.
  intros a b [[-> ->]|[-> ->]]; vm_compute; repeat split; try reflexivity.
  right. split; reflexivity.
Qed.

Lemma image64_heads :
  bucket_heads profile64 image64 0x1010
  = repeat None 5 ++ [Some 0x1400] ++ repeat None 58.
Proof. vm_compute. reflexivity. Qed.

Lemma image64_accepted :
  accepted_in profile64 image64 (mkVma 0x1000 0x2000) = [0x1010].
Proof. vm_compute. reflexivity. Qed.

Lemma image32_accepted :
  accepted_in profile32 image32 (mkVma 0x1000 0x2000) = [0x1010].
Proof. vm_compute. reflexivity. Qed.

Lemma two_entry_tables_equivalent :
  Forall2 (tables_equivalent two_entry_correspondence image32 image64)
          (accepted_in profile32 image32 (mkVma 0x1000 0x2000))
          (accepted_in profile64 image64 (mkVma 0x1000 0x2000)).
Proof.
  rewrite image32_accepted, image64_accepted.
  constructor; [|constructor].
  unfold tables_equivalent. rewrite image64_heads.
  destruct image32_premises as (_ & -> & _).
  apply Forall2_app; [|apply Forall2_app].
  - cbn [repeat]. repeat (constructor; [exact I|]). constructor.
  - constructor; [|constructor]. left. split; reflexivity.
  - cbn [repeat]. repeat (constructor; [exact I|]). constructor.
Qed.

Lemma narrow_and_wide_agree_witness :
  map_outcome (render_row profile32) (calculate 2 only_bash profile32 [bash_task image32])
  = map_outcome (render_row profile64) (calculate 2 only_bash profile64 [bash_task image64]).
Proof.
  apply (narrow_and_wide_agree two_entry_correspondence only_bash 2
           (bash_task image32) (bash_task image64) image32 image64
           (mkVma 0x1000 0x2000) (mkVma 0x1000 0x2000)).
  - reflexivity.
  - reflexivity.
  - reflexivity.
  - reflexivity.
  - exact two_entry_images_equivalent.
  - exact two_entry_tables_equivalent.
Defined.

(** * Further properties of the plugin *)

(** ** The profile modification *)

Lemma dict_get_update {V : Type} (d e : dict V) (k : string) :
  dict_get (dict_update d e) k
  = match dict_get e k with
    | Some v => Some v
    | None => dict_get d k
    end.
Proof.
  unfold dict_update. induction e as [|[k' v] e IH]; [reflexivity|].
  cbn. destruct (String.eqb k' k); [reflexivity|exact IH].
Qed.

Lemma chosen_catalog_cases (profile : Profile) :
  chosen_catalog profile = bash_hash_vtypes_32
  \/ chosen_catalog profile = bash_hash_vtypes_64.
Proof.
  unfold chosen_catalog. destruct (String.eqb _ "32bit"); auto.
Qed.

Lemma modification_vtypes (profile : Profile) :
  vtypes (modification profile) = dict_update (vtypes profile) (chosen_catalog profile).
Proof.
  unfold modification, chosen_catalog. cbn [vtypes].
  destruct (String.eqb _ "32bit"); reflexivity.
Qed.

Lemma catalog_names (profile : Profile) (name : string) :
  name <> "_pathdata" -> name <> "bucket_contents" -> name <> "_bash_hash_table" ->
  dict_get (chosen_catalog profile) name = None.
Proof.
  intros H1 H2 H3.
  apply not_eq_sym, String.eqb_neq in H1.
  apply not_eq_sym, String.eqb_neq in H2.
  apply not_eq_sym, String.eqb_neq in H3.
  destruct (chosen_catalog_cases profile) as [-> | ->];
    cbn [dict_get bash_hash_vtypes_32 bash_hash_vtypes_64];
    rewrite H1, H2, H3; reflexivity.
Qed.

(** X1: whatever the profile already holds, after [modification] the three
    structures are those of the catalog chosen by the memory model (the
    narrow one when no memory model is given), every other structure is
    looked up as before, and the validity test of a table is the one of
    [_bash_hash_table]. *)
Theorem modification_overrides (profile : Profile) :
  (forall name,
      dict_get (vtypes (modification profile)) name
      = match dict_get (chosen_catalog profile) name with
        | Some d => Some d
        | None => dict_get (vtypes profile) name
        end)
  /\ (forall name member,
         In name ["_pathdata"; "bucket_contents"; "_bash_hash_table"] ->
         get_obj_offset (modification profile) name member
         = get_obj_offset (mkProfile [] (chosen_catalog profile) []) name member)
  /\ (forall name member,
         name <> "_pathdata" -> name <> "bucket_contents" ->
         name <> "_bash_hash_table" ->
         get_obj_offset (modification profile) name member
         = get_obj_offset profile name member)
  /\ (dict_get (metadata profile) "memory_model" = None ->
      chosen_catalog profile = bash_hash_vtypes_32)
  /\ (forall vm off,
         htable_is_valid (modification profile) vm off
         = bash_hash_table_is_valid (modification profile) vm off).
Proof.
  split; [|split; [|split; [|split]]].
  - intros name. rewrite modification_vtypes. apply dict_get_update.
  - intros name member Hin. unfold get_obj_offset. cbn [vtypes].
    rewrite modification_vtypes, dict_get_update.
    destruct (chosen_catalog_cases profile) as [-> | ->];
      cbn in Hin; destruct Hin as [<-|[<-|[<-|[]]]]; reflexivity.
  - intros name member H1 H2 H3. unfold get_obj_offset.
    rewrite modification_vtypes, dict_get_update, catalog_names by assumption.
    reflexivity.
  - intros H. unfold chosen_catalog, dict_get_default. rewrite H. reflexivity.
  - intros vm off. unfold htable_is_valid, modification. cbn [object_classes].
    rewrite dict_get_update. reflexivity.
Qed.

(** X2: [modification] applied twice gives the same lookups as applied
    once: structures, object classes, metadata and pointer width. *)
Theorem modification_idempotent (profile : Profile) :
  (forall name,
      dict_get (vtypes (modification (modification profile))) name
      = dict_get (vtypes (modification profile)) name)
  /\ (forall name,
         dict_get (object_classes (modification (modification profile))) name
         = dict_get (object_classes (modification profile)) name)
  /\ metadata (modification (modification profile)) = metadata profile
  /\ pointer_size (modification (modification profile)) = pointer_size profile.
Proof.
  split; [|split; [|split]].
  - intros name. rewrite (modification_vtypes (modification profile)).
    rewrite dict_get_update.
    replace (chosen_catalog (modification profile)) with (chosen_catalog profile)
      by reflexivity.
    rewrite modification_vtypes, dict_get_update.
    destruct (dict_get (chosen_catalog profile) name); reflexivity.
  - intros name. unfold modification. cbn [object_classes].
    rewrite !dict_get_update.
    destruct (dict_get [("_bash_hash_table", class_bash_hash_table)] name); reflexivity.
  - reflexivity.
  - reflexivity.
Qed.

Lemma modification_nbuckets_offset (profile : Profile) :
  exists nbo, get_obj_offset (modification profile) "_bash_hash_table" "nbuckets" = Some nbo.
Proof.
  unfold get_obj_offset. rewrite modification_vtypes, dict_get_update.
  destruct (chosen_catalog_cases profile) as [-> | ->]; eexists; reflexivity.
Qed.

(** X3: under any profile that went through [modification], whatever it
    held before, [calculate] never raises: the lookup of the offset of
    [nbuckets] succeeds and no later step can fail, so a run either yields
    its rows or is still in a loop when the fuel is spent. *)
Theorem calculate_modified_never_raises (profile : Profile) (config : Config)
        (fuel : nat) (tasks : list task_struct) :
  (exists nbo,
      get_obj_offset (modification profile) "_bash_hash_table" "nbuckets" = Some nbo)
  /\ ((exists rows, calculate fuel config (modification profile) tasks = Yields rows)
      \/ calculate fuel config (modification profile) tasks = Running).
Proof.
  split; [apply modification_nbuckets_offset|].
  assert (H : calculate fuel config (modification profile) tasks <> Raises).
  { unfold calculate.
    destruct (modification_nbuckets_offset profile) as [nbo ->].
    apply for_each_never_raises. intros t. apply scan_task_never_raises. }
  destruct (calculate fuel config (modification profile) tasks) as [rows| |];
    [left; eauto|contradiction|right; reflexivity].
Qed.

(** ** The prefilter is an optimisation only *)

Lemma filter_absorb {A : Type} (f g : A -> bool) (l : list A) :
  (forall x, f x = true -> g x = true) ->
  filter f (filter g l) = filter f l.
Proof.
  intros H. induction l as [|x l IH]; [reflexivity|].
  cbn [filter]. destruct (g x) eqn:Eg.
  - cbn [filter]. rewrite IH. reflexivity.
  - destruct (f x) eqn:Ef; [|exact IH].
    apply H in Ef. congruence.
Qed.

Lemma valid_passes_prefilter (memory_model : option string) (vm : AddressSpace)
      (nbo o : Z) :
  get_obj_offset (linux_profile memory_model) "_bash_hash_table" "nbuckets" = Some nbo ->
  htable_is_valid (linux_profile memory_model) vm o = true ->
  prefilter vm nbo o = true.
Proof.
  intros Hoff Hv. apply prefilter_true_iff.
  rewrite htable_is_valid_linux in Hv.
  apply bash_hash_table_is_valid_iff in Hv. destruct Hv as (_ & _ & H64 & _).
  rewrite (int_member_at _ vm _ _ o nbo Hoff) in H64.
  apply read_int_64_prefilter, H64.
Qed.

(** X4: the prefilter never hides a table: the tables accepted in a scanned
    range are all the offsets of the range at which the validator holds, and
    the scan yields what it would yield were the validator run at every
    offset. *)
Theorem prefilter_transparent (memory_model : option string) (vm : AddressSpace)
        (nbo lo hi : Z) :
  let p := linux_profile memory_model in
  get_obj_offset p "_bash_hash_table" "nbuckets" = Some nbo ->
  accepted_tables p vm nbo lo hi = filter (htable_is_valid p vm) (range lo hi)
  /\ (forall fuel, scan_heap p vm fuel nbo lo hi
                   = for_each (validate_and_walk p vm fuel) (range lo hi)).
Proof.
  intros p Hoff. split.
  - unfold accepted_tables, candidates. apply filter_absorb.
    intros o. apply valid_passes_prefilter. exact Hoff.
  - intros fuel. rewrite scan_heap_candidates. unfold candidates.
    symmetry. apply for_each_filter; [|reflexivity].
    intros o Hpre. unfold validate_and_walk.
    destruct (htable_is_valid p vm o) eqn:Hv; [|reflexivity].
    apply (valid_passes_prefilter memory_model vm nbo o Hoff) in Hv. congruence.
Qed.

Lemma prefilter_transparent_witness :
  accepted_tables (linux_profile (Some "32bit")) image32 4 0x1000 0x2000
  = filter (htable_is_valid (linux_profile (Some "32bit")) image32) (range 0x1000 0x2000).
Proof.
  exact (proj1 (prefilter_transparent (Some "32bit") image32 4 0x1000 0x2000 eq_refl)).
Defined.

(** ** Regions without a table *)

(** X5: a scanned range in which the validator holds nowhere yields the
    empty sequence, whatever the profile and the fuel; so does a range whose
    end is not above its start. *)
Theorem scan_without_table_is_empty (p : Profile) (vm : AddressSpace) (fuel : nat)
        (nbo lo hi : Z) :
  (forall o, lo <= o < hi -> htable_is_valid p vm o = false) ->
  scan_heap p vm fuel nbo lo hi = Yields []
  /\ (hi <= lo -> forall vm' p', scan_heap p' vm' fuel nbo lo hi = Yields []).
Proof.
  intros H. split.
  - rewrite scan_heap_candidates. apply for_each_all_nil.
    intros o Hin. apply candidates_In in Hin. destruct Hin as [Hr _].
    unfold validate_and_walk. rewrite (H o Hr). reflexivity.
  - intros Hle vm' p'. unfold scan_heap. rewrite range_empty by exact Hle.
    reflexivity.
Qed.

Lemma scan_without_table_is_empty_witness :
  scan_heap profile32 half_mapped 0 4 0x1000 0x1002 = Yields [].
Proof.
  refine (proj1 (scan_without_table_is_empty profile32 half_mapped 0 4 0x1000 0x1002 _)).
  intros o Hr. assert (Ho : o = 0x1000 \/ o = 0x1001) by lia.
  destruct Ho as [-> | ->]; reflexivity.
Defined.

(** ** The heap region *)

Lemma find_first {A : Type} (f : A -> bool) (l : list A) :
  match find f l with
  | Some x =>
      f x = true
      /\ exists earlier later,
           l = earlier ++ x :: later /\ forall y, In y earlier -> f y = false
  | None => forall y, In y l -> f y = false
  end.
Proof.
  induction l as [|a l IH]; cbn [find]; [intros y []|].
  destruct (f a) eqn:Ea.
  - split; [exact Ea|]. exists [], l. split; [reflexivity|]. intros y [].
  - destruct (find f l) as [x|].
    + destruct IH as (Hx & earlier & later & -> & Hear).
      split; [exact Hx|]. exists (a :: earlier), later. split; [reflexivity|].
      intros y [<-|Hy]; auto.
    + intros y [<-|Hy]; auto.
Qed.

(** ** What a yielded row guarantees *)

Lemma for_each_yields_In {A B : Type} (body : A -> outcome B) (xs : list A) :
  forall rows, for_each body xs = Yields rows ->
  forall r, In r rows ->
  exists x rs, In x xs /\ body x = Yields rs /\ In r rs.
Proof.
  induction xs as [|x xs IH]; intros rows H r Hr.
  - cbn in H. injection H as <-. destruct Hr.
  - rewrite for_each_cons in H. apply and_then_yields_inv in H.
    destruct H as (r1 & r2 & H1 & H2 & ->).
    apply in_app_or in Hr. destruct Hr as [Hr|Hr].
    + exists x, r1. split; [left; reflexivity|]. auto.
    + destruct (IH r2 H2 r Hr) as (y & rs & Hy & Hb & Hin).
      exists y, rs. split; [right; exact Hy|]. auto.
Qed.

Lemma map_outcome_yields_inv {A B : Type} (f : A -> B) (o : outcome A) (rows : list B) :
  map_outcome f o = Yields rows -> exists l, o = Yields l /\ rows = map f l.
Proof.
  destruct o as [l| |]; cbn; try discriminate.
  intros H. injection H as <-. eauto.
Qed.

Lemma live_chain_all_live (p : Profile) (vm : AddressSpace) (b : option Z)
      (nodes : list Z) :
  live_chain p vm b nodes -> forall a, In a nodes -> loop_condition p vm a = true.
Proof.
  induction 1 as [|a Hc|a nodes Hc Hl IH]; intros x Hx.
  - destruct Hx.
  - destruct Hx.
  - destruct Hx as [<-|Hx]; auto.
Qed.

(** Where a yielded bucket comes from. *)
Lemma calculate_yields_inv (fuel : nat) (config : Config) (p : Profile)
      (tasks : list task_struct) (rows : list (task_struct * Object))
      (task : task_struct) (bucket : Object) :
  calculate fuel config p tasks = Yields rows ->
  In (task, bucket) rows ->
  In task tasks
  /\ exists heap_vma table head nodes,
       scan_target config task = Some (obj_vm bucket, heap_vma)
       /\ vm_start heap_vma <= table < vm_end heap_vma
       /\ htable_is_valid p (obj_vm bucket) table = true
       /\ In head (bucket_heads p (obj_vm bucket) table)
       /\ live_chain p (obj_vm bucket) head nodes
       /\ In (obj_offset bucket) nodes
       /\ yield_condition p (obj_vm bucket) (obj_offset bucket) = true.
Proof.
  unfold calculate.
  destruct (get_obj_offset p "_bash_hash_table" "nbuckets") as [nbo|]; [|discriminate].
  intros H Hin.
  destruct (for_each_yields_In _ _ _ H _ Hin) as (t & rs & Ht & Hbody & Hrs).
  unfold scan_task in Hbody.
  destruct (scan_target config t) as [[proc_as heap_vma]|] eqn:Htarget;
    [|injection Hbody as <-; destruct Hrs].
  apply map_outcome_yields_inv in Hbody. destruct Hbody as (l & Hscan & ->).
  apply in_map_iff in Hrs. destruct Hrs as (a & Heq & Ha).
  injection Heq as <- <-. cbn [obj_vm obj_offset].
  split; [exact Ht|].
  rewrite scan_heap_accepted in Hscan.
  destruct (for_each_yields_In _ _ _ Hscan _ Ha) as (table & rs & Htab & Hwalk & Hrs).
  unfold accepted_tables in Htab. apply filter_In in Htab.
  destruct Htab as [Hcand Hvalid]. apply candidates_In in Hcand.
  destruct Hcand as [Hrange _].
  rewrite walk_table_heads in Hwalk.
  destruct (for_each_yields_In _ _ _ Hwalk _ Hrs) as (head & rs' & Hhead & Hchain & Hrs').
  apply while_chain_yields_inv in Hchain.
  destruct Hchain as (nodes & Hlive & _ & ->).
  apply filter_In in Hrs'. destruct Hrs' as [Hnode Hyield].
  exists heap_vma, table, head, nodes. repeat split; auto; lia.
Qed.

Lemma scan_target_selected (config : Config) (task : task_struct)
      (target : AddressSpace * vm_area_struct) :
  scan_target config task = Some target ->
  (SCAN_ALL config = true \/ comm task = "bash")
  /\ get_process_address_space task = Some (fst target)
  /\ find_heap_vma task = Some (snd target).
Proof.
  unfold scan_target.
  destruct (get_process_address_space task) as [proc_as|]; [|discriminate].
  destruct (SCAN_ALL config) eqn:Eall; cbn [orb negb].
  - destruct (find_heap_vma task) as [v|]; [|discriminate].
    intros H. injection H as <-. auto.
  - destruct (String.eqb (comm task) "bash") eqn:E; cbn [negb]; [|discriminate].
    apply String.eqb_eq in E.
    destruct (find_heap_vma task) as [v|]; [|discriminate].
    intros H. injection H as <-. auto.
Qed.

(** X8: every row of a finished run is complete: its hit count was read
    and is positive, its command and its path resolve to strings, the flags
    of its path data lie in [0, 2], and its pid and name are those of the
    process it was yielded with. *)
Theorem yielded_rows_complete (fuel : nat) (config : Config) (p : Profile)
        (tasks : list task_struct) (rows : list (task_struct * Object))
        (item : task_struct * Object) :
  calculate fuel config p tasks = Yields rows ->
  In item rows ->
  (exists hits, row_hits (render_row p item) = Some hits /\ 0 < hits)
  /\ (exists command, row_command (render_row p item) = Some command)
  /\ (exists path, row_full_path (render_row p item) = Some path)
  /\ (exists flags, entry_flags p (obj_vm (snd item)) (obj_offset (snd item)) = Some flags
                    /\ 0 <= flags <= 2)
  /\ row_pid (render_row p item) = pid (fst item)
  /\ row_name (render_row p item) = comm (fst item).
Proof.
  destruct item as [task bucket]. intros H Hin.
  destruct (calculate_yields_inv _ _ _ _ _ _ _ H Hin)
    as (_ & heap_vma & table & head & nodes & _ & _ & _ & _ & Hlive & Hnode & Hyield).
  pose proof (live_chain_all_live _ _ _ _ Hlive _ Hnode) as Hloop.
  apply loop_condition_iff in Hloop. destruct Hloop as ((n & Hn & Hpos) & _ & Hkey).
  apply yield_condition_iff in Hyield.
  destruct Hyield as (pdata & Hpd & Hpath & flags & Hflags & Hrange).
  cbn [render_row snd fst row_hits row_command row_full_path row_pid row_name].
  split; [exists n; auto|]. split.
  { rewrite String_str_valid in Hkey.
    destruct (String_str (obj_vm bucket) _) as [s|]; [eauto|discriminate]. }
  split.
  { rewrite Hpd. rewrite String_str_valid in Hpath.
    destruct (String_str (obj_vm bucket) _) as [s|]; [eauto|discriminate]. }
  split; [|split; reflexivity].
  exists flags. unfold entry_flags. rewrite Hpd. auto.
Qed.

Lemma yielded_rows_complete_witness :
  exists hits,
    row_hits (render_row profile32 (bash_task image32, mkObject image32 0x1400)) = Some hits
    /\ 0 < hits.
Proof.
  refine (proj1 (yielded_rows_complete 2 only_bash profile32 [bash_task image32] _
                   (bash_task image32, mkObject image32 0x1400) image32_run _)).
  left. reflexivity.
Defined.

(** ** The prefilter as a byte pattern *)

Lemma byte_val_inj (b b' : byte) : byte_val b = byte_val b' -> b = b'.
Proof.
  unfold byte_val. intros H. apply N2Z.inj in H.
  pose proof (Byte.of_to_N b) as Hb. rewrite H, Byte.of_to_N in Hb.
  congruence.
Qed.

Lemma le_unsigned_64 (b0 b1 b2 b3 : byte) :
  le_unsigned [b0; b1; b2; b3] = 64 <-> [b0; b1; b2; b3] = [x40; x00; x00; x00].
Proof.
  split.
  - cbn [le_unsigned]. intros H.
    pose proof (byte_val_range b0) as R0. pose proof (byte_val_range b1) as R1.
    pose proof (byte_val_range b2) as R2. pose proof (byte_val_range b3) as R3.
    assert (H0 : byte_val b0 = byte_val x40) by (change (byte_val x40) with 64; lia).
    assert (H1 : byte_val b1 = byte_val x00) by (change (byte_val x00) with 0; lia).
    assert (H2 : byte_val b2 = byte_val x00) by (change (byte_val x00) with 0; lia).
    assert (H3 : byte_val b3 = byte_val x00) by (change (byte_val x00) with 0; lia).
    apply byte_val_inj in H0, H1, H2, H3. subst. reflexivity.
  - intros H. injection H as -> -> -> ->. reflexivity.
Qed.

(** X10: an offset passes the prefilter exactly when the four bytes that
    [zread] returns for its bucket-count cell are 40 00 00 00; in particular
    a cell that cannot be read never passes. *)
Theorem prefilter_byte_pattern (vm : AddressSpace) (nbo o : Z) :
  (prefilter vm nbo o = true <-> zread vm (o + nbo) 4 = [x40; x00; x00; x00])
  /\ (read vm (o + nbo) 4 = None -> prefilter vm nbo o = false).
Proof.
  split; [|apply prefilter_read_failure].
  rewrite prefilter_true_iff, unpack_I_zread.
  pose proof (zread_length vm (o + nbo) 4) as Hlen.
  destruct (zread vm (o + nbo) 4) as [|b0 [|b1 [|b2 [|b3 [|b4 rest]]]]];
    try discriminate Hlen.
  rewrite <- le_unsigned_64. split; congruence.
Qed.

(** ** The scan-all option *)

Lemma scan_target_only_bash (task : task_struct) :
  scan_target only_bash task
  = if String.eqb (comm task) "bash" then scan_target scan_all task else None.
Proof.
  unfold scan_target, only_bash, scan_all. cbn [SCAN_ALL orb negb].
  destruct (get_process_address_space task);
    destruct (String.eqb (comm task) "bash"); reflexivity.
Qed.

Lemma filter_map_const {A B : Type} (f : B -> bool) (g : A -> B) (l : list A) (v : bool) :
  (forall a, f (g a) = v) ->
  filter f (map g l) = if v then map g l else [].
Proof.
  intros H. induction l as [|a l IH]; cbn [map filter]; [destruct v; reflexivity|].
  rewrite H, IH. destruct v; reflexivity.
Qed.

Lemma scan_task_only_bash (fuel : nat) (p : Profile) (nbo : Z) (task : task_struct)
      (rows : list (task_struct * Object)) :
  scan_task fuel scan_all p nbo task = Yields rows ->
  scan_task fuel only_bash p nbo task = Yields (filter named_bash rows).
Proof.
  unfold scan_task. rewrite scan_target_only_bash.
  destruct (scan_target scan_all task) as [[proc_as heap_vma]|].
  - intros H. apply map_outcome_yields_inv in H. destruct H as (l & Hl & ->).
    rewrite (filter_map_const named_bash _ l (String.eqb (comm task) "bash"))
      by reflexivity.
    destruct (String.eqb (comm task) "bash"); [|reflexivity].
    rewrite Hl. reflexivity.
  - intros H. injection H as <-. destruct (String.eqb (comm task) "bash"); reflexivity.
Qed.

(** X11: when the run over all processes ends, the run restricted to the
    processes named bash ends too and yields exactly the rows of the former
    whose process is named bash, in the same order. *)
Theorem only_bash_filters_scan_all (fuel : nat) (p : Profile)
        (tasks : list task_struct) (rows : list (task_struct * Object)) :
  calculate fuel scan_all p tasks = Yields rows ->
  calculate fuel only_bash p tasks = Yields (filter named_bash rows).
Proof.
  unfold calculate.
  destruct (get_obj_offset p "_bash_hash_table" "nbuckets") as [nbo|]; [|discriminate].
  revert rows. induction tasks as [|t tasks IH]; intros rows H.
  - cbn in H |- *. injection H as <-. reflexivity.
  - rewrite for_each_cons in H |- *. apply and_then_yields_inv in H.
    destruct H as (r1 & r2 & H1 & H2 & ->).
    rewrite (scan_task_only_bash _ _ _ _ _ H1), (IH _ H2), filter_app.
    reflexivity.
Qed.

Lemma image32_run_all :
  calculate 2 scan_all profile32 [bash_task image32]
  = Yields [ (bash_task image32, mkObject image32 0x1400);
             (bash_task image32, mkObject image32 0x1440) ].
Proof.
  rewrite (calculate_single 2 scan_all profile32 4 (bash_task image32) image32
                            (mkVma 0x1000 0x2000) eq_refl eq_refl).
  cbn [vm_start vm_end]. rewrite image32_heap_scan. reflexivity.
Qed.

Lemma only_bash_filters_scan_all_witness :
  calculate 2 only_bash profile32 [bash_task image32]
  = Yields (filter named_bash [ (bash_task image32, mkObject image32 0x1400);
                                (bash_task image32, mkObject image32 0x1440) ]).
Proof.
  exact (only_bash_filters_scan_all 2 profile32 [bash_task image32] _ image32_run_all).
Defined.

(** ** No entry twice in a chain *)

(** X12: the traversal of one chain, when it ends, yields no entry twice,
    and every entry it yields passes both the loop test and the test that
    guards the yield. *)
Theorem chain_yields_distinct (p : Profile) (vm : AddressSpace) (fuel : nat)
        (b : option Z) (rows : list Z) :
  while_chain p vm fuel b = Yields rows ->
  NoDup rows
  /\ forall a, In a rows ->
               loop_condition p vm a = true /\ yield_condition p vm a = true.
Proof.
  intros H. apply while_chain_yields_inv in H.
  destruct H as (nodes & Hlive & _ & ->). split.
  - apply NoDup_filter. eapply live_chain_NoDup. eassumption.
  - intros a Ha. apply filter_In in Ha. destruct Ha as [Hn Hy].
    split; [|exact Hy]. eapply live_chain_all_live; eassumption.
Qed.

Lemma image32_chain_run :
  while_chain profile32 image32 2 (Some 0x1400) = Yields [0x1400; 0x1440].
Proof. reflexivity. Qed.

Lemma chain_yields_distinct_witness : NoDup [0x1400; 0x1440].
Proof.
  exact (proj1 (chain_yields_distinct profile32 image32 2 (Some 0x1400) _
                  image32_chain_run)).
Defined.

(** * The rows of a finished run, exactly *)

Lemma for_each_yields_incl {A B : Type} (body : A -> outcome B) (xs : list A) :
  forall rows, for_each body xs = Yields rows ->
  forall x, In x xs -> exists rs, body x = Yields rs /\ incl rs rows.
Proof.
  induction xs as [|y xs IH]; intros rows H x Hx; [destruct Hx|].
  rewrite for_each_cons in H. apply and_then_yields_inv in H.
  destruct H as (r1 & r2 & H1 & H2 & ->). destruct Hx as [<-|Hx].
  - exists r1. split; [exact H1|]. apply incl_appl, incl_refl.
  - destruct (IH r2 H2 x Hx) as (rs & Hrs & Hincl).
    exists rs. split; [exact Hrs|]. apply incl_appr. exact Hincl.
Qed.

Lemma accepted_tables_In (memory_model : option string) (vm : AddressSpace)
      (nbo lo hi table : Z) :
  get_obj_offset (linux_profile memory_model) "_bash_hash_table" "nbuckets" = Some nbo ->
  (In table (accepted_tables (linux_profile memory_model) vm nbo lo hi)
   <-> lo <= table < hi /\ htable_is_valid (linux_profile memory_model) vm table = true).
Proof.
  intros Hoff. unfold accepted_tables. rewrite filter_In, candidates_In. split.
  - tauto.
  - intros [Hr Hv]. repeat split; try tauto.
    apply prefilter_true_iff. apply (valid_passes_prefilter memory_model); assumption.
Qed.

(** The walk of a table yields exactly the entries of its chains. *)
Lemma walk_table_rows_iff (p : Profile) (vm : AddressSpace) (fuel : nat)
      (table : Z) (rows : list Z) :
  walk_table p vm fuel table = Yields rows ->
  forall a, In a rows <-> table_entry p vm table a.
Proof.
  intros H a. rewrite walk_table_heads in H. split.
  - intros Ha.
    destruct (for_each_yields_In _ _ _ H _ Ha) as (head & rs & Hhead & Hchain & Hrs).
    apply while_chain_yields_inv in Hchain. destruct Hchain as (nodes & Hlive & _ & ->).
    apply filter_In in Hrs. destruct Hrs as [Hn Hy].
    exists head, nodes. auto.
  - intros (head & nodes & Hhead & Hlive & Hn & Hy).
    destruct (for_each_yields_incl _ _ _ H _ Hhead) as (rs & Hchain & Hincl).
    apply Hincl. apply while_chain_yields_inv in Hchain.
    destruct Hchain as (nodes' & Hlive' & _ & ->).
    rewrite (live_chain_functional _ _ _ _ _ Hlive' Hlive).
    apply filter_In. auto.
Qed.

(** The scan of a range yields exactly the entries of the tables that the
    validator accepts at the offsets of the range. *)
Lemma scan_heap_rows_iff (memory_model : option string) (vm : AddressSpace)
      (fuel : nat) (nbo lo hi : Z) (rows : list Z) :
  get_obj_offset (linux_profile memory_model) "_bash_hash_table" "nbuckets" = Some nbo ->
  scan_heap (linux_profile memory_model) vm fuel nbo lo hi = Yields rows ->
  forall a, In a rows <->
            exists table, lo <= table < hi
                          /\ htable_is_valid (linux_profile memory_model) vm table = true
                          /\ table_entry (linux_profile memory_model) vm table a.
Proof.
  intros Hoff H a. rewrite scan_heap_accepted in H. split.
  - intros Ha.
    destruct (for_each_yields_In _ _ _ H _ Ha) as (table & rs & Htab & Hwalk & Hrs).
    apply (accepted_tables_In memory_model vm nbo lo hi table Hoff) in Htab.
    exists table. split; [tauto|]. split; [tauto|].
    apply (walk_table_rows_iff _ _ _ _ _ Hwalk). exact Hrs.
  - intros (table & Hr & Hv & Hentry).
    assert (Htab : In table (accepted_tables (linux_profile memory_model) vm nbo lo hi))
      by (apply accepted_tables_In; auto).
    destruct (for_each_yields_incl _ _ _ H _ Htab) as (rs & Hwalk & Hincl).
    apply Hincl. apply (walk_table_rows_iff _ _ _ _ _ Hwalk). exact Hentry.
Qed.

(** The rows of a finished run of [calculate] are exactly the entries of the
    accepted tables in the heap regions of the processes that are scanned. *)
Lemma calculate_rows_iff (memory_model : option string) (config : Config)
      (fuel : nat) (tasks : list task_struct) (rows : list (task_struct * Object)) :
  calculate fuel config (linux_profile memory_model) tasks = Yields rows ->
  forall task bucket,
    In (task, bucket) rows <->
    In task tasks
    /\ exists heap_vma table,
         scan_target config task = Some (obj_vm bucket, heap_vma)
         /\ vm_start heap_vma <= table < vm_end heap_vma
         /\ htable_is_valid (linux_profile memory_model) (obj_vm bucket) table = true
         /\ table_entry (linux_profile memory_model) (obj_vm bucket) table
                        (obj_offset bucket).
Proof.
  intros H task bucket. split.
  - intros Hin.
    destruct (calculate_yields_inv _ _ _ _ _ _ _ H Hin)
      as (Ht & heap_vma & table & head & nodes & Htarget & Hr & Hv & Hh & Hl & Hn & Hy).
    split; [exact Ht|]. exists heap_vma, table. repeat split; try tauto.
    exists head, nodes. auto.
  - intros (Ht & heap_vma & table & Htarget & Hr & Hv & Hentry).
    unfold calculate in H.
    destruct (get_obj_offset (linux_profile memory_model) "_bash_hash_table" "nbuckets")
      as [nbo|] eqn:Hoff; [|discriminate].
    destruct (for_each_yields_incl _ _ _ H _ Ht) as (rs & Htask & Hincl).
    apply Hincl. unfold scan_task in Htask. rewrite Htarget in Htask.
    apply map_outcome_yields_inv in Htask. destruct Htask as (l & Hscan & ->).
    apply in_map_iff. exists (obj_offset bucket). split.
    + destruct bucket as [vm a]. reflexivity.
    + apply (scan_heap_rows_iff memory_model _ _ _ _ _ _ Hoff Hscan).
      exists table. auto.
Qed.

Lemma scan_heap_validate (memory_model : option string) (vm : AddressSpace)
      (fuel : nat) (nbo lo hi : Z) :
  get_obj_offset (linux_profile memory_model) "_bash_hash_table" "nbuckets" = Some nbo ->
  scan_heap (linux_profile memory_model) vm fuel nbo lo hi
  = for_each (validate_and_walk (linux_profile memory_model) vm fuel) (range lo hi).
Proof.
  intros Hoff. rewrite scan_heap_candidates. unfold candidates.
  symmetry. apply for_each_filter; [|reflexivity].
  intros o Hpre. unfold validate_and_walk.
  destruct (htable_is_valid (linux_profile memory_model) vm o) eqn:Hv; [|reflexivity].
  apply (valid_passes_prefilter memory_model vm nbo o Hoff) in Hv. congruence.
Qed.

Lemma scan_target_found (config : Config) (task : task_struct)
      (proc_as : AddressSpace) (heap_vma : vm_area_struct) :
  get_process_address_space task = Some proc_as ->
  find_heap_vma task = Some heap_vma ->
  SCAN_ALL config = true \/ comm task = "bash" ->
  scan_target config task = Some (proc_as, heap_vma).
Proof.
  intros Has Hheap Hsel. unfold scan_target. rewrite Has, Hheap.
  destruct Hsel as [-> | Hbash]; [reflexivity|].
  apply String.eqb_eq in Hbash. rewrite Hbash, orb_true_r. reflexivity.
Qed.

(** * The scanned range, the selected processes, read failures *)

Lemma for_each_ext {A B : Type} (f g : A -> outcome B) (xs : list A) :
  (forall x, f x = g x) -> for_each f xs = for_each g xs.
Proof.
  intros H. induction xs as [|x xs IH]; [reflexivity|].
  rewrite !for_each_cons, H, IH. reflexivity.
Qed.

(** C10: the scan loop applies the prefilter test, and to the offsets that
    pass it the validator and the walk, at the offsets of the half-open
    interval from [vm_start] to [vm_end], each once and in ascending order;
    [vm_end] is not among them.  The rows of a finished scan are exactly the
    entries of the tables accepted at an offset [vm_start <= o < vm_end]. *)
Theorem scan_range_half_open (memory_model : option string) (vm : AddressSpace)
        (fuel : nat) (nbo : Z) (heap_vma : vm_area_struct) :
  let p := linux_profile memory_model in
  get_obj_offset p "_bash_hash_table" "nbuckets" = Some nbo ->
  scan_heap p vm fuel nbo (vm_start heap_vma) (vm_end heap_vma)
  = for_each (fun o => if prefilter vm nbo o then validate_and_walk p vm fuel o
                       else Yields [])
             (range (vm_start heap_vma) (vm_end heap_vma))
  /\ (forall o, In o (range (vm_start heap_vma) (vm_end heap_vma))
                <-> vm_start heap_vma <= o < vm_end heap_vma)
  /\ ~ In (vm_end heap_vma) (range (vm_start heap_vma) (vm_end heap_vma))
  /\ NoDup (range (vm_start heap_vma) (vm_end heap_vma))
  /\ (forall o, vm_start heap_vma <= o < vm_end heap_vma ->
                range (vm_start heap_vma) (vm_end heap_vma)
                = range (vm_start heap_vma) o ++ o :: range (o + 1) (vm_end heap_vma))
  /\ (forall rows,
         scan_heap p vm fuel nbo (vm_start heap_vma) (vm_end heap_vma) = Yields rows ->
         forall a, In a rows <->
                   exists table, vm_start heap_vma <= table < vm_end heap_vma
                                 /\ htable_is_valid p vm table = true
                                 /\ table_entry p vm table a).
Proof.
  intros p Hoff. split.
  { unfold scan_heap. apply for_each_ext. intros o. apply scan_offset_prefilter. }
  split; [intros o; apply range_In|].
  split; [rewrite range_In; lia|]. split; [apply range_NoDup|].
  split; [intros o H; apply range_split; exact H|].
  intros rows H. apply (scan_heap_rows_iff memory_model vm fuel nbo _ _ rows Hoff H).
Qed.

Lemma image32_below_table :
  scan_heap profile32 image32 2 4 0x1000 0x1010 = Yields [].
Proof. vm_compute. reflexivity. Qed.

Lemma image32_through_table :
  scan_heap profile32 image32 2 4 0x1000 0x1011 = Yields [0x1400; 0x1440].
Proof. vm_compute. reflexivity. Qed.

Lemma scan_range_half_open_witness :
  (~ In 0x1010 (range 0x1000 0x1010))
  /\ scan_heap profile32 image32 2 4 0x1000 0x1010 = Yields []
  /\ scan_heap profile32 image32 2 4 0x1000 0x1011 = Yields [0x1400; 0x1440].
Proof.
  pose proof (scan_range_half_open (Some "32bit") image32 2 4 (mkVma 0x1000 0x1010)
                                   eq_refl) as H.
  split; [exact (proj1 (proj2 (proj2 H)))|].
  split; [exact image32_below_table|exact image32_through_table].
Defined.

(** C9: for a process whose address space and heap region are found, the
    loop body scans the heap region, every offset of it, when the scan-all
    option is set or the process is named bash, and yields nothing
    otherwise; in a finished run an entry of an accepted table of that
    region is among the rows, paired with the process, exactly when the
    option is set or the process is named bash. *)
Theorem process_selection (memory_model : option string) (config : Config)
        (fuel : nat) (nbo : Z) (task : task_struct)
        (proc_as : AddressSpace) (heap_vma : vm_area_struct) :
  let p := linux_profile memory_model in
  get_obj_offset p "_bash_hash_table" "nbuckets" = Some nbo ->
  get_process_address_space task = Some proc_as ->
  find_heap_vma task = Some heap_vma ->
  (SCAN_ALL config = false ->
     (scan_target config task = Some (proc_as, heap_vma) <-> comm task = "bash")
     /\ (comm task <> "bash" -> scan_task fuel config p nbo task = Yields []))
  /\ (SCAN_ALL config = true \/ comm task = "bash" ->
      scan_target config task = Some (proc_as, heap_vma)
      /\ scan_task fuel config p nbo task
         = map_outcome (fun a => (task, mkObject proc_as a))
                       (for_each (validate_and_walk p proc_as fuel)
                                 (range (vm_start heap_vma) (vm_end heap_vma))))
  /\ (forall tasks rows table a,
         In task tasks ->
         calculate fuel config p tasks = Yields rows ->
         vm_start heap_vma <= table < vm_end heap_vma ->
         htable_is_valid p proc_as table = true ->
         table_entry p proc_as table a ->
         (In (task, mkObject proc_as a) rows
          <-> SCAN_ALL config = true \/ comm task = "bash")).
Proof.
  intros p Hoff Has Hheap. split; [|split].
  - intros Hall. split.
    + unfold scan_target. rewrite Has, Hheap, Hall. cbn [orb].
      destruct (String.eqb (comm task) "bash") eqn:E; cbn [negb].
      * apply String.eqb_eq in E. tauto.
      * apply String.eqb_neq in E. split; [discriminate|contradiction].
    + intros Hne. unfold scan_task, scan_target. rewrite Has, Hall. cbn [orb].
      apply String.eqb_neq in Hne. rewrite Hne. reflexivity.
  - intros Hsel.
    pose proof (scan_target_found config task proc_as heap_vma Has Hheap Hsel) as Ht.
    split; [exact Ht|]. unfold scan_task. rewrite Ht.
    unfold p. rewrite (scan_heap_validate memory_model) by exact Hoff. reflexivity.
  - intros tasks rows table a Hin Hrun Hr Hv Hentry.
    rewrite (calculate_rows_iff memory_model config fuel tasks rows Hrun).
    cbn [obj_vm obj_offset]. split.
    + intros (_ & heap' & table' & Htarget & _).
      apply scan_target_selected in Htarget. tauto.
    + intros Hsel. split; [exact Hin|]. exists heap_vma, table.
      split; [apply scan_target_found; assumption|]. auto.
Qed.

Lemma image32_table_entry : table_entry profile32 image32 0x1010 0x1400.
Proof.
  exists (Some 0x1400), [0x1400; 0x1440]. split.
  - destruct image32_premises as (_ & -> & _).
    apply in_or_app. right. left. reflexivity.
  - split; [exact image32_chain|]. split; [left; reflexivity|reflexivity].
Qed.

Lemma process_selection_witness :
  In (bash_task image32, mkObject image32 0x1400)
     [ (bash_task image32, mkObject image32 0x1400);
       (bash_task image32, mkObject image32 0x1440) ]
  <-> SCAN_ALL only_bash = true \/ comm (bash_task image32) = "bash".
Proof.
  pose proof (process_selection (Some "32bit") only_bash 2 4 (bash_task image32)
                image32 (mkVma 0x1000 0x2000) eq_refl eq_refl eq_refl) as H.
  refine (proj2 (proj2 H) [bash_task image32] _ 0x1010 0x1400
                (or_introl eq_refl) image32_run _ eq_refl image32_table_entry).
  cbn. lia.
Defined.

(** C7: a failed read of the prefilter cell at [o] keeps [o] out of the
    candidates, and the scan still validates and walks every other offset
    of the range, before and after [o]: a finished scan holds every entry
    of every table accepted in the range.  A process without address space
    or without heap region is skipped, and the run over the processes is
    that over the others: its rows, when it ends, are exactly the entries of
    the accepted tables of the other scanned processes.  No run raises. *)
Theorem read_failure_is_local (memory_model : option string) (config : Config)
        (fuel : nat) (vm : AddressSpace) (nbo lo hi o : Z)
        (task : task_struct) (before after : list task_struct) :
  let p := linux_profile memory_model in
  get_obj_offset p "_bash_hash_table" "nbuckets" = Some nbo ->
  lo <= o < hi ->
  read vm (o + nbo) 4 = None ->
  get_process_address_space task = None \/ find_heap_vma task = None ->
  ~ In o (candidates vm nbo lo hi)
  /\ scan_offset p vm fuel nbo o = Yields []
  /\ scan_heap p vm fuel nbo lo hi
     = and_then (for_each (validate_and_walk p vm fuel) (range lo o))
                (for_each (validate_and_walk p vm fuel) (range (o + 1) hi))
  /\ (forall rows, scan_heap p vm fuel nbo lo hi = Yields rows ->
        forall table a, lo <= table < hi ->
                        htable_is_valid p vm table = true ->
                        table_entry p vm table a ->
                        In a rows)
  /\ calculate fuel config p (before ++ task :: after)
     = and_then (calculate fuel config p before) (calculate fuel config p after)
  /\ (forall rows, calculate fuel config p (before ++ task :: after) = Yields rows ->
        forall t bucket,
          In (t, bucket) rows <->
          In t (before ++ after)
          /\ exists heap_vma table,
               scan_target config t = Some (obj_vm bucket, heap_vma)
               /\ vm_start heap_vma <= table < vm_end heap_vma
               /\ htable_is_valid p (obj_vm bucket) table = true
               /\ table_entry p (obj_vm bucket) table (obj_offset bucket))
  /\ (forall tasks, calculate fuel config p tasks <> Raises).
Proof.
  intros p Hoff Hr Hfail Hskip.
  pose proof (prefilter_read_failure vm nbo o Hfail) as Hpre.
  assert (Hso : scan_offset p vm fuel nbo o = Yields [])
    by (rewrite scan_offset_prefilter, Hpre; reflexivity).
  assert (Hnone : scan_target config task = None)
    by (apply scan_target_skipped; exact Hskip).
  split.
  { unfold candidates. rewrite filter_In. intros [_ H]. congruence. }
  split; [exact Hso|]. split.
  { unfold p. rewrite <- !(scan_heap_validate memory_model vm fuel nbo) by exact Hoff.
    fold p. unfold scan_heap.
    rewrite (range_split lo hi o Hr), for_each_app, for_each_cons.
    rewrite Hso, and_then_nil_l. reflexivity. }
  split.
  { intros rows Hrun table a Htab Hv Hentry.
    apply (scan_heap_rows_iff memory_model vm fuel nbo lo hi rows Hoff Hrun).
    exists table. auto. }
  split.
  { unfold calculate. rewrite Hoff, !for_each_app, for_each_cons.
    unfold scan_task at 2. rewrite Hnone, and_then_nil_l. reflexivity. }
  split.
  { intros rows Hrun t bucket.
    rewrite (calculate_rows_iff memory_model config fuel _ rows Hrun). split.
    - intros (Hin & heap_vma & table & Htarget & Hrest).
      split; [|exists heap_vma, table; auto].
      apply in_app_or in Hin. apply in_or_app.
      destruct Hin as [Hin|[<-|Hin]]; auto. congruence.
    - intros (Hin & Hrest). split; [|exact Hrest].
      apply in_app_or in Hin. apply in_or_app.
      destruct Hin as [Hin|Hin]; [left|right; right]; exact Hin. }
  intros tasks. unfold calculate. rewrite Hoff.
  apply for_each_never_raises. intros t. apply scan_task_never_raises.
Qed.

Lemma holed_image32_scan :
  scan_heap (linux_profile (Some "32bit")) holed_image32 2 4 0x1000 0x2000
  = Yields [0x1400; 0x1440].
Proof. vm_compute. reflexivity. Qed.

Lemma holed_image32_table_entry :
  table_entry (linux_profile (Some "32bit")) holed_image32 0x1010 0x1440.
Proof.
  exists (Some 0x1400), [0x1400; 0x1440]. split.
  - assert (H : bucket_heads (linux_profile (Some "32bit")) holed_image32 0x1010
                = repeat None 5 ++ [Some 0x1400] ++ repeat None 58)
      by (vm_compute; reflexivity).
    rewrite H. apply in_or_app. right. left. reflexivity.
  - split.
    + apply (live_chain_step_to _ _ _ (Some 0x1440)); [reflexivity|reflexivity|].
      apply (live_chain_step_to _ _ _ None); [reflexivity|reflexivity|].
      apply chain_null.
    + split; [right; left; reflexivity|reflexivity].
Qed.

Lemma read_failure_is_local_witness :
  read holed_image32 (0x1000 + 4) 4 = None
  /\ ~ In 0x1000 (candidates holed_image32 4 0x1000 0x2000)
  /\ In 0x1440 [0x1400; 0x1440].
Proof.
  assert (Hfail : read holed_image32 (0x1000 + 4) 4 = None) by reflexivity.
  assert (Hr : 0x1000 <= 0x1000 < 0x2000) by lia.
  assert (Hskip : get_process_address_space no_address_space = None
                  \/ find_heap_vma no_address_space = None) by (left; reflexivity).
  pose proof (read_failure_is_local (Some "32bit") only_bash 2 holed_image32 4
                0x1000 0x2000 0x1000 no_address_space
                [] [bash_task holed_image32] eq_refl Hr Hfail Hskip) as H.
  split; [exact Hfail|]. split; [exact (proj1 H)|].
  refine (proj1 (proj2 (proj2 (proj2 H))) _ holed_image32_scan 0x1010 0x1440 _ _
                holed_image32_table_entry); [lia|reflexivity].
Defined.

(** * The round trip of a two-entry table *)

Lemma for_each_all_null (p : Profile) (vm : AddressSpace) (fuel : nat) (n : nat) :
  for_each (while_chain p vm fuel) (repeat None n) = Yields [].
Proof.
  apply for_each_all_nil. intros b Hb. apply repeat_spec in Hb. subst b.
  destruct fuel; reflexivity.
Qed.

Lemma yield_condition_of_flags (p : Profile) (vm : AddressSpace) (a flags : Z) :
  entry_flags p vm a = Some flags -> 0 <= flags <= 2 ->
  path_resolves p vm a = true ->
  yield_condition p vm a = true.
Proof.
  unfold entry_flags, path_resolves, yield_condition.
  destruct (dereference vm (pointer_member p vm "bucket_contents" "data" a)) as [pdata|];
    [|discriminate].
  intros -> Hr ->. cbn [andb]. apply andb_true_iff. split; apply Z.leb_le; lia.
Qed.

Lemma loop_condition_of_count (p : Profile) (vm : AddressSpace) (a n : Z) :
  int_member p vm "bucket_contents" "times_found" a = Some n -> 0 < n ->
  pointer_is_valid vm (pointer_member p vm "bucket_contents" "data" a) = true ->
  pointer_is_valid vm (pointer_member p vm "bucket_contents" "key" a) = true ->
  loop_condition p vm a = true.
Proof. intros Hn Hpos Hd Hk. apply loop_condition_iff. eauto. Qed.

(** C4 (as amended): for every profile, process and memory image in which
    the scanned heap region holds exactly one offset that the validator
    accepts, a table with exactly one populated bucket whose chain is two
    entries, found 3 times and once, with data, key and path pointers that
    resolve and flags 0 and 2, [calculate] yields exactly these two entries,
    in chain order, with hit counts 3 and 1, the two being distinct, for
    every fuel of at least two loop runs. *)
Theorem two_entry_table_scan (p : Profile) (config : Config) (fuel : nat)
        (task : task_struct) (vm : AddressSpace) (heap_vma : vm_area_struct)
        (table a1 a2 : Z) :
  scan_target config task = Some (vm, heap_vma) ->
  spec_two_entry_image p vm heap_vma table a1 a2 ->
  accepted_in p vm heap_vma = [table] ->
  path_resolves p vm a1 = true ->
  path_resolves p vm a2 = true ->
  (2 <= fuel)%nat ->
  calculate fuel config p [task]
  = Yields [(task, mkObject vm a1); (task, mkObject vm a2)]
  /\ map row_hits (render_text p [(task, mkObject vm a1); (task, mkObject vm a2)])
     = [Some 3; Some 1]
  /\ NoDup (offsets_of [(task, mkObject vm a1); (task, mkObject vm a2)]).
Proof.
  intros Htarget Himg Hacc Hp1 Hp2 Hfuel.
  destruct Himg as (_ & _ & (i & _ & Hheads) & Hn1 & Hn2 & Ht1 & Ht2
                    & Hd1 & Hk1 & Hd2 & Hk2 & Hf1 & Hf2).
  assert (Hl1 : loop_condition p vm a1 = true)
    by (apply (loop_condition_of_count p vm a1 3); auto; lia).
  assert (Hl2 : loop_condition p vm a2 = true)
    by (apply (loop_condition_of_count p vm a2 1); auto; lia).
  assert (Hy1 : yield_condition p vm a1 = true)
    by (apply (yield_condition_of_flags p vm a1 0); auto; lia).
  assert (Hy2 : yield_condition p vm a2 = true)
    by (apply (yield_condition_of_flags p vm a2 2); auto; lia).
  assert (Hchain : live_chain p vm (Some a1) [a1; a2]).
  { apply (live_chain_step_to p vm a1 (Some a2)); auto.
    apply (live_chain_step_to p vm a2 None); auto. apply chain_null. }
  assert (Hne : a1 <> a2).
  { pose proof (live_chain_NoDup p vm _ _ Hchain) as Hnd.
    inversion Hnd as [|x l Hnotin _]; subst. intros ->. apply Hnotin. left. reflexivity. }
  split; [|split].
  - unfold accepted_in in Hacc.
    destruct (get_obj_offset p "_bash_hash_table" "nbuckets") as [nbo|] eqn:Hoff;
      [|discriminate].
    rewrite (calculate_single fuel config p nbo task vm heap_vma Hoff Htarget).
    rewrite scan_heap_accepted, Hacc. cbn [for_each fold_right].
    rewrite and_then_nil_r, walk_table_heads, Hheads, !for_each_app.
    rewrite !for_each_all_null, and_then_nil_l, and_then_nil_r.
    cbn [for_each fold_right]. rewrite and_then_nil_r.
    rewrite (while_chain_live p vm _ _ Hchain fuel) by (cbn; lia).
    cbn [filter]. rewrite Hy1, Hy2. reflexivity.
  - cbn [render_text map render_row row_hits obj_vm obj_offset].
    rewrite Ht1, Ht2. reflexivity.
  - unfold offsets_of. cbn [map snd obj_offset].
    constructor; [|constructor; [|constructor]].
    + intros [H|[]]. congruence.
    + intros [].
Qed.

Lemma image32_spec :
  spec_two_entry_image profile32 image32 (mkVma 0x1000 0x2000) 0x1010 0x1400 0x1440.
Proof.
  unfold spec_two_entry_image. cbn [vm_start vm_end].
  split; [lia|]. split; [reflexivity|]. split.
  { exists 5%nat. split; [lia|]. vm_compute. reflexivity. }
  repeat split; reflexivity.
Qed.

Lemma image64_spec :
  spec_two_entry_image profile64 image64 (mkVma 0x1000 0x2000) 0x1010 0x1400 0x1440.
Proof.
  unfold spec_two_entry_image. cbn [vm_start vm_end].
  split; [lia|]. split; [reflexivity|]. split.
  { exists 5%nat. split; [lia|]. vm_compute. reflexivity. }
  repeat split; reflexivity.
Qed.

Lemma two_entry_table_scan_witness :
  calculate 2 only_bash profile32 [bash_task image32]
  = Yields [ (bash_task image32, mkObject image32 0x1400);
             (bash_task image32, mkObject image32 0x1440) ]
  /\ calculate 5 only_bash profile64 [bash_task image64]
     = Yields [ (bash_task image64, mkObject image64 0x1400);
                (bash_task image64, mkObject image64 0x1440) ].
Proof.
  split.
  - refine (proj1 (two_entry_table_scan profile32 only_bash 2 (bash_task image32)
                     image32 (mkVma 0x1000 0x2000) 0x1010 0x1400 0x1440
                     eq_refl image32_spec image32_accepted eq_refl eq_refl _)).
    lia.
  - refine (proj1 (two_entry_table_scan profile64 only_bash 5 (bash_task image64)
                     image64 (mkVma 0x1000 0x2000) 0x1010 0x1400 0x1440
                     eq_refl image64_spec image64_accepted eq_refl eq_refl _)).
    lia.
Defined.

Lemma pathless_image32_spec :
  spec_two_entry_image profile32 pathless_image32 (mkVma 0x1000 0x2000)
                       0x1010 0x1400 0x1440.
Proof.
  unfold spec_two_entry_image. cbn [vm_start vm_end].
  split; [lia|]. split; [reflexivity|]. split.
  { exists 5%nat. split; [lia|]. vm_compute. reflexivity. }
  repeat split; reflexivity.
Qed.

Lemma pathless_image32_scan :
  scan_heap profile32 pathless_image32 2 4 0x1000 0x2000 = Yields [0x1400].
Proof. vm_compute. reflexivity. Qed.

(** C4 (as stated) fails: the image whose second entry has a null path
    pointer meets every condition of the statement (one valid table, one
    populated bucket, two chained entries found 3 times and once, data and
    key pointers that resolve, flags 0 and 2), and the scan yields one
    result, not two. *)
Lemma unresolved_path_drops_entry :
  spec_two_entry_image profile32 pathless_image32 (mkVma 0x1000 0x2000)
                       0x1010 0x1400 0x1440
  /\ scan_target only_bash (bash_task pathless_image32)
     = Some (pathless_image32, mkVma 0x1000 0x2000)
  /\ forall k : nat,
       calculate (2 + k) only_bash profile32 [bash_task pathless_image32]
       = Yields [(bash_task pathless_image32, mkObject pathless_image32 0x1400)].
Proof.
  split; [exact pathless_image32_spec|]. split; [reflexivity|].
  intros k.
  apply (calculate_mono only_bash profile32 [bash_task pathless_image32] 2%nat
                        (2 + k)%nat); [|lia].
  rewrite (calculate_single 2 only_bash profile32 4 _ _ _ eq_refl
                            (bash_task_target pathless_image32)).
  cbn [vm_start vm_end]. rewrite pathless_image32_scan. reflexivity.
Qed.

(** * Where the two layouts part *)

Lemma coincident_equivalent :
  entries_equivalent coincident_correspondence coincident_image32 coincident_image64.
Proof.
  intros a b [[-> ->]|[-> ->]]; vm_compute; repeat split; try reflexivity.
  right. split; reflexivity.
Qed.

Lemma coincident_tables_equivalent :
  tables_equivalent coincident_correspondence coincident_image32 coincident_image64
                    0x1010 0x1010.
Proof.
  unfold tables_equivalent.
  assert (H32 : bucket_heads profile32 coincident_image32 0x1010
                = repeat None 5 ++ [Some 0x1414] ++ repeat None 58)
    by (vm_compute; reflexivity).
  assert (H64 : bucket_heads profile64 coincident_image64 0x1010
                = repeat None 5 ++ [Some 0x1420] ++ repeat None 58)
    by (vm_compute; reflexivity).
  rewrite H32, H64.
  apply Forall2_app; [|apply Forall2_app].
  - cbn [repeat]. repeat (constructor; [exact I|]). constructor.
  - constructor; [|constructor]. left. split; reflexivity.
  - cbn [repeat]. repeat (constructor; [exact I|]). constructor.
Qed.

Lemma yields_length_differs {A : Type} (l1 l2 : list A) :
  List.length l1 <> List.length l2 -> Yields l1 <> Yields l2.
Proof. intros Hlen H. apply Hlen. injection H as ->. reflexivity. Qed.

Lemma coincident_scan32 :
  scan_heap profile32 coincident_image32 2 4 0x1000 0x2000
  = Yields [0x1414; 0x1400; 0x1414; 0x1400].
Proof. vm_compute. reflexivity. Qed.

Lemma coincident_scan64 :
  scan_heap profile64 coincident_image64 2 8 0x1000 0x2000 = Yields [0x1420; 0x1400].
Proof. vm_compute. reflexivity. Qed.

(** C8 (as stated) fails: one table, its two entries stored one after the
    other, laid out under the narrow and under the wide catalog.  The
    entries of the two buffers correspond and so do the chain heads of the
    table; yet under the narrow layout the cells of the entry at 0x1400
    (hash 0x1100, 64 hits) followed by the next pointer of its neighbour
    read as one more table header at 0x140c, which under the wide layout
    they do not, and the narrow run renders four rows where the wide run
    renders two. *)
Lemma layouts_disagree_on_coincident_header :
  entries_equivalent coincident_correspondence coincident_image32 coincident_image64
  /\ tables_equivalent coincident_correspondence coincident_image32 coincident_image64
                       0x1010 0x1010
  /\ accepted_in profile32 coincident_image32 (mkVma 0x1000 0x2000) = [0x1010; 0x140c]
  /\ accepted_in profile64 coincident_image64 (mkVma 0x1000 0x2000) = [0x1010]
  /\ map_outcome (render_row profile32)
                 (calculate 2 only_bash profile32 [bash_task coincident_image32])
     <> map_outcome (render_row profile64)
                    (calculate 2 only_bash profile64 [bash_task coincident_image64]).
Proof.
  split; [exact coincident_equivalent|]. split; [exact coincident_tables_equivalent|].
  split; [vm_compute; reflexivity|]. split; [vm_compute; reflexivity|].
  rewrite (calculate_single 2 only_bash profile32 4 _ _ _ eq_refl
                            (bash_task_target coincident_image32)).
  rewrite (calculate_single 2 only_bash profile64 8 _ _ _ eq_refl
                            (bash_task_target coincident_image64)).
  cbn [vm_start vm_end]. rewrite coincident_scan32, coincident_scan64.
  cbn [map_outcome]. apply yields_length_differs.
  rewrite !length_map. cbn [List.length]. discriminate.
Qed.

(** * The heap region and the provenance of rows *)

(** X6: for a selected process with an address space, the region that is
    scanned is the first of its memory regions, in map order, that starts at
    or below the start of the heap and ends at or above the break: the loop
    body validates and walks every offset of that region, which holds every
    address of the heap proper, and in a finished run the entries of a table
    accepted at a heap address are among the rows. *)
Theorem heap_vma_first_cover (memory_model : option string) (config : Config)
        (fuel : nat) (nbo : Z) (task : task_struct) (proc_as : AddressSpace)
        (earlier later : list vm_area_struct) (heap_vma : vm_area_struct) :
  let p := linux_profile memory_model in
  get_obj_offset p "_bash_hash_table" "nbuckets" = Some nbo ->
  get_process_address_space task = Some proc_as ->
  SCAN_ALL config = true \/ comm task = "bash" ->
  get_proc_maps task = earlier ++ heap_vma :: later ->
  (forall vma, In vma earlier -> covers_heap task vma = false) ->
  covers_heap task heap_vma = true ->
  scan_task fuel config p nbo task
  = map_outcome (fun a => (task, mkObject proc_as a))
                (for_each (validate_and_walk p proc_as fuel)
                          (range (vm_start heap_vma) (vm_end heap_vma)))
  /\ (forall a, mm_start_brk task <= a < mm_brk task ->
                In a (range (vm_start heap_vma) (vm_end heap_vma)))
  /\ (forall rows table a,
         calculate fuel config p [task] = Yields rows ->
         mm_start_brk task <= table < mm_brk task ->
         htable_is_valid p proc_as table = true ->
         table_entry p proc_as table a ->
         In (task, mkObject proc_as a) rows).
Proof.
  intros p Hoff Has Hsel Hmaps Hearlier Hcover.
  assert (Hfind : find_heap_vma task = Some heap_vma).
  { unfold find_heap_vma. rewrite Hmaps. clear Hmaps.
    induction earlier as [|u earlier IH]; cbn [app find].
    - unfold covers_heap in Hcover. rewrite Hcover. reflexivity.
    - pose proof (Hearlier u (or_introl eq_refl)) as Hu. unfold covers_heap in Hu.
      rewrite Hu. apply IH. intros vma Hin. apply Hearlier. right. exact Hin. }
  pose proof (scan_target_found config task proc_as heap_vma Has Hfind Hsel) as Ht.
  unfold covers_heap in Hcover. apply andb_true_iff in Hcover.
  destruct Hcover as [Hs He]. apply Z.leb_le in Hs. apply Z.geb_le in He.
  split; [|split].
  - unfold scan_task. rewrite Ht.
    unfold p. rewrite (scan_heap_validate memory_model) by exact Hoff. reflexivity.
  - intros a Ha. apply range_In. lia.
  - intros rows table a Hrun Hr Hv Hentry.
    apply (calculate_rows_iff memory_model config fuel [task] rows Hrun).
    split; [left; reflexivity|]. exists heap_vma, table.
    cbn [obj_vm obj_offset]. repeat split; auto; lia.
Qed.

Lemma heap_vma_first_cover_witness :
  scan_task 2 only_bash (linux_profile (Some "32bit")) 4 (bash_task image32)
  = map_outcome (fun a => (bash_task image32, mkObject image32 a))
                (for_each (validate_and_walk (linux_profile (Some "32bit")) image32 2)
                          (range 0x1000 0x2000)).
Proof.
  refine (proj1 (heap_vma_first_cover (Some "32bit") only_bash 2 4 (bash_task image32)
                   image32 [mkVma 0x400 0x800] [] (mkVma 0x1000 0x2000)
                   eq_refl eq_refl (or_intror eq_refl) eq_refl _ eq_refl)).
  intros vma [<-|[]]. reflexivity.
Defined.

(** X9: the rows of a finished run are exactly the entries of the accepted
    tables of the scanned processes: a pair of a process and a bucket is
    among them if and only if the process is one of those given, is
    selected (scan-all, or named bash), has the address space the bucket
    lives in and a heap region, and the bucket is a live entry, passing the
    test that guards the yield, of a chain headed by a bucket cell of a
    table that lies in that region and that the validator accepts. *)
Theorem finished_run_rows_exact (memory_model : option string) (config : Config)
        (fuel : nat) (tasks : list task_struct) (rows : list (task_struct * Object))
        (task : task_struct) (bucket : Object) :
  let p := linux_profile memory_model in
  calculate fuel config p tasks = Yields rows ->
  (In (task, bucket) rows <->
   In task tasks
   /\ (SCAN_ALL config = true \/ comm task = "bash")
   /\ get_process_address_space task = Some (obj_vm bucket)
   /\ exists heap_vma table,
        find_heap_vma task = Some heap_vma
        /\ vm_start heap_vma <= table < vm_end heap_vma
        /\ htable_is_valid p (obj_vm bucket) table = true
        /\ table_entry p (obj_vm bucket) table (obj_offset bucket)).
Proof.
  intros p Hrun.
  rewrite (calculate_rows_iff memory_model config fuel tasks rows Hrun). split.
  - intros (Hin & heap_vma & table & Htarget & Hrest).
    destruct (scan_target_selected _ _ _ Htarget) as (Hsel & Has & Hheap).
    cbn [fst snd] in Has, Hheap.
    split; [exact Hin|]. split; [exact Hsel|]. split; [exact Has|].
    exists heap_vma, table. tauto.
  - intros (Hin & Hsel & Has & heap_vma & table & Hheap & Hrest).
    split; [exact Hin|]. exists heap_vma, table.
    split; [apply scan_target_found; assumption|]. exact Hrest.
Qed.

Lemma finished_run_rows_exact_witness :
  In (bash_task image32, mkObject image32 0x1400)
     [ (bash_task image32, mkObject image32 0x1400);
       (bash_task image32, mkObject image32 0x1440) ]
  <-> In (bash_task image32) [bash_task image32]
      /\ (SCAN_ALL only_bash = true \/ comm (bash_task image32) = "bash")
      /\ get_process_address_space (bash_task image32) = Some image32
      /\ exists heap_vma table,
           find_heap_vma (bash_task image32) = Some heap_vma
           /\ vm_start heap_vma <= table < vm_end heap_vma
           /\ htable_is_valid (linux_profile (Some "32bit")) image32 table = true
           /\ table_entry (linux_profile (Some "32bit")) image32 table 0x1400.
Proof.
  exact (finished_run_rows_exact (Some "32bit") only_bash 2 [bash_task image32] _
           (bash_task image32) (mkObject image32 0x1400) image32_run).
Defined.
